(** * oauth2client.clientsecrets: reading OAuth 2.0 client secret files

    A shallow embedding of [oauth2client/clientsecrets.py] (Python 2) and
    the properties of its validator, its loaders and its cache-backed
    loader.

    Python values are embedded as the inductive type [json]; a Python
    [dict] with string keys is a [gmap string json].  A Python call that
    may raise is a [result]; code that touches the file system, stream
    objects or the cache collaborator is a state transformer [prog]. *)

From Stdlib Require Import ZArith Ascii String.
From stdpp Require Import gmap strings list fin_maps functions.

Set Warnings "-register-all".

Local Open Scope string_scope.

(** ** Python values *)

(** The values [json.load] produces, which are also the values a cache
    collaborator hands back: [None], booleans, integers, floats (a decimal
    mantissa and exponent), unicode strings, lists and dicts. *)
Inductive json : Type :=
| JNull
| JBool (b : bool)
| JInt (n : Z)
| JFloat (mantissa exponent : Z)
| JStr (s : string)
| JArr (l : list json)
| JObj (m : gmap string json).

(** ** Exceptions and results *)

Inductive exn : Type :=
| InvalidClientSecretsError (msg : string)
| IOError
| ValueError
| TypeError
| AttributeError
| KeyError
| IndexError
| StopIteration.

Inductive result (A : Type) : Type :=
| Return (a : A)
| Raise (e : exn).
Arguments Return {A} a.
Arguments Raise {A} e.

#[global] Instance result_ret : MRet result := @Return.
#[global] Instance result_bind : MBind result := λ A B f r,
  match r with
  | Return a => f a
  | Raise e => Raise e
  end.

(** ** Python primitives on values *)

(** A unicode string is held as its UTF-8 encoding. Its length in Python
    (on a build with four-byte unicode characters) is its number of code
    points: the bytes that do not continue a character, those outside the
    range 128 to 191. *)
Definition is_continuation (c : ascii) : bool :=
  (128 <=? nat_of_ascii c)%nat && (nat_of_ascii c <? 192)%nat.

Fixpoint py_strlen (s : string) : nat :=
  match s with
  | EmptyString => 0
  | String c s' => (if is_continuation c then 0 else 1) + py_strlen s'
  end.

(** [len(v)] *)
Definition py_len (v : json) : result nat :=
  match v with
  | JObj m => Return (size m)
  | JArr l => Return (length l)
  | JStr s => Return (py_strlen s)
  | JNull | JBool _ | JInt _ | JFloat _ _ => Raise TypeError
  end.

(** [v.keys()]; the order of a Python 2 dict is unspecified, here it is the
    order of [map_to_list]. *)
Definition py_keys (v : json) : result (list string) :=
  match v with
  | JObj m => Return (map_to_list m).*1
  | _ => Raise AttributeError
  end.

(** [l[0]] on a list *)
Definition py_first {A : Type} (l : list A) : result A :=
  match l with
  | x :: _ => Return x
  | [] => Raise IndexError
  end.

(** [needle in hay] on strings: substring test *)
Fixpoint str_contains (needle hay : string) : bool :=
  String.prefix needle hay ||
  match hay with
  | EmptyString => false
  | String _ hay' => str_contains needle hay'
  end.

(** [x == k] for a value [x] and a string [k] *)
Definition py_eq_str (x : json) (k : string) : bool :=
  match x with
  | JStr s => bool_decide (s = k)
  | _ => false
  end.

(** [k in v] *)
Definition py_in (k : string) (v : json) : result bool :=
  match v with
  | JObj m => Return (bool_decide (is_Some (m !! k)))
  | JArr l => Return (existsb (λ x, py_eq_str x k) l)
  | JStr s => Return (str_contains k s)
  | JNull | JBool _ | JInt _ | JFloat _ _ => Raise TypeError
  end.

(** [v[k]] for a string [k] *)
Definition py_getitem (v : json) (k : string) : result json :=
  match v with
  | JObj m =>
      match m !! k with
      | Some x => Return x
      | None => Raise KeyError
      end
  | _ => Raise TypeError
  end.

(** [v.startswith(p)] *)
Definition py_startswith (v : json) (p : string) : result bool :=
  match v with
  | JStr s => Return (String.prefix p s)
  | _ => Raise AttributeError
  end.

(** [v.iteritems().next()] *)
Definition py_iteritems_next (v : json) : result (string * json) :=
  match v with
  | JObj m =>
      match map_to_list m with
      | kv :: _ => Return kv
      | [] => Raise StopIteration
      end
  | _ => Raise AttributeError
  end.

(** ** The schema table *)

Definition TYPE_WEB : string := "web".
Definition TYPE_INSTALLED : string := "installed".

Record client_schema : Type := ClientSchema {
  required : list string;
  string_props : list string;
}.

Definition VALID_CLIENT : gmap string client_schema :=
  {[ TYPE_WEB :=
       {| required := ["client_id"; "client_secret"; "redirect_uris";
                       "auth_uri"; "token_uri"];
          string_props := ["client_id"; "client_secret"] |};
     TYPE_INSTALLED :=
       {| required := ["client_id"; "client_secret"; "redirect_uris";
                       "auth_uri"; "token_uri"];
          string_props := ["client_id"; "client_secret"] |} ]}.

(** ** Error messages *)

Definition dquote : string := String "034"%char EmptyString.

(** ['Invalid file format.'] *)
Definition MalformedDocument : exn :=
  InvalidClientSecretsError "Invalid file format.".

(** ['Unknown client type: %s.' % client_type] *)
Definition UnknownClientType (client_type : string) : exn :=
  InvalidClientSecretsError ("Unknown client type: " +:+ client_type +:+ ".").

(** ['Missing property "%s" in a client type of "%s".' % (prop_name, client_type)] *)
Definition MissingField (prop_name client_type : string) : exn :=
  InvalidClientSecretsError
    ("Missing property " +:+ dquote +:+ prop_name +:+ dquote +:+
     " in a client type of " +:+ dquote +:+ client_type +:+ dquote +:+ ".").

(** ['Property "%s" is not configured.' % prop_name] *)
Definition PlaceholderNotConfigured (prop_name : string) : exn :=
  InvalidClientSecretsError
    ("Property " +:+ dquote +:+ prop_name +:+ dquote +:+ " is not configured.").

(** ['File not found: "%s"' % filename_or_io] *)
Definition FileNotFound (shown : string) : exn :=
  InvalidClientSecretsError ("File not found: " +:+ dquote +:+ shown +:+ dquote).

(** ** The validator *)

(** [for prop_name in VALID_CLIENT[client_type]['required']: ...] *)
Fixpoint check_required (client_type : string) (client_info : json)
    (props : list string) : result unit :=
  match props with
  | [] => Return tt
  | prop_name :: props' =>
      present ← py_in prop_name client_info;
      if negb present then Raise (MissingField prop_name client_type)
      else check_required client_type client_info props'
  end.

(** [for prop_name in VALID_CLIENT[client_type]['string']: ...] *)
Fixpoint check_string (client_info : json) (props : list string)
    : result unit :=
  match props with
  | [] => Return tt
  | prop_name :: props' =>
      value ← py_getitem client_info prop_name;
      placeholder ← py_startswith value "[[";
      if (placeholder : bool) then Raise (PlaceholderNotConfigured prop_name)
      else check_string client_info props'
  end.

Definition _validate_clientsecrets (obj : json) : result (string * json) :=
  invalid ← match obj with
            | JNull => Return true
            | _ => n ← py_len obj; Return (negb (n =? 1)%nat)
            end;
  if (invalid : bool) then Raise MalformedDocument else
  keys ← py_keys obj;
  client_type ← py_first keys;
  match VALID_CLIENT !! client_type with
  | None => Raise (UnknownClientType client_type)
  | Some schema =>
      client_info ← py_getitem obj client_type;
      _ ← check_required client_type client_info (required schema);
      _ ← check_string client_info (string_props schema);
      Return (client_type, client_info)
  end.

(** [load(fp)] and [loads(s)] decode with the standard library's [json]
    module, which is not part of this module: the decoder is a parameter,
    [None] standing for the [ValueError] it raises on text that is not a
    JSON document. *)
Definition decoder : Type := string → option json.

Definition loads (json_loads : decoder) (s : string)
    : result (string * json) :=
  obj ← match json_loads s with
        | Some obj => Return obj
        | None => Raise ValueError
        end;
  _validate_clientsecrets obj.

(** ** The world: files, stream objects and cache objects *)

(** What a path holds: text, or something whose [read] fails. A path the
    file system does not hold cannot be opened. *)
Inductive fsentry : Type :=
| Readable (text : string)
| Unreadable.

(** An [io.IOBase] object: its [name] attribute when it has one, what
    [str] shows for it, the text still to be read ([None] when reading
    fails with an I/O error), and whether it has been closed. *)
Record stream : Type := MkStream {
  s_name : option string;
  s_repr : string;
  s_data : option string;
  s_closed : bool;
}.

(** The argument [filename_or_io]: a path, or a reference to a stream
    object. *)
Inductive source : Type :=
| Path (filename : string)
| Stream (h : nat).

(** A file object the code reads from: the caller's stream, or a file the
    module opened itself with [file(filename, 'r')]. *)
Inductive fileobj : Type :=
| StreamObj (h : nat)
| OwnFile (filename : string) (e : fsentry).

Inductive event : Type :=
| EvOpen (filename : string)
| EvClose (filename : string).

(** The cache collaborator: any object with [get(key, namespace=ns)] and
    [set(key, value, namespace=ns)]. [cache_truth] is the truth value of
    the object, which [if not cache] tests: [True] for an object that
    defines neither [__nonzero__] nor [__len__], and for one that does,
    what they decide from what the object holds. *)
Class Cache (C : Type) : Type := {
  cache_truth : C → bool;
  cache_get : C → string → string → json;
  cache_set : C → string → json → string → C;
}.

Section Loader.
Context {C : Type} `{!Cache C}.
Variable json_loads : decoder.

Record state : Type := MkState {
  st_fs : gmap string fsentry;
  st_streams : nat → stream;
  st_caches : nat → C;
  st_trace : list event;
}.

Definition set_stream (h : nat) (s : stream) (st : state) : state :=
  {| st_fs := st_fs st; st_streams := <[h := s]> (st_streams st);
     st_caches := st_caches st; st_trace := st_trace st |}.

Definition set_cache (c : nat) (x : C) (st : state) : state :=
  {| st_fs := st_fs st; st_streams := st_streams st;
     st_caches := <[c := x]> (st_caches st); st_trace := st_trace st |}.

Definition log (ev : event) (st : state) : state :=
  {| st_fs := st_fs st; st_streams := st_streams st;
     st_caches := st_caches st; st_trace := st_trace st ++ [ev] |}.

(** *** Programs: state passing with exceptions *)

Definition prog (A : Type) : Type := state → result A * state.

#[global] Instance prog_ret : MRet prog := λ A a st, (Return a, st).
#[global] Instance prog_bind : MBind prog := λ A B f m st,
  match m st with
  | (Return a, st') => f a st'
  | (Raise e, st') => (Raise e, st')
  end.

Definition raise {A : Type} (e : exn) : prog A := λ st, (Raise e, st).
Definition lift {A : Type} (r : result A) : prog A := λ st, (r, st).

(** [try: body finally: final] *)
Definition try_finally {A : Type} (body : prog A) (final : prog unit)
    : prog A := λ st,
  let '(r, st1) := body st in
  match final st1 with
  | (Return _, st2) => (r, st2)
  | (Raise e, st2) => (Raise e, st2)
  end.

(** [try: body except IOError: handler] *)
Definition try_except_IOError {A : Type} (body handler : prog A)
    : prog A := λ st,
  match body st with
  | (Raise IOError, st1) => handler st1
  | other => other
  end.

(** *** File objects *)

(** [file(filename, 'r')] *)
Definition file (filename : string) : prog fileobj := λ st,
  match st_fs st !! filename with
  | Some e => (Return (OwnFile filename e), log (EvOpen filename) st)
  | None => (Raise IOError, st)
  end.

(** [fp.read()] *)
Definition fp_read (fp : fileobj) : prog string :=
  match fp with
  | StreamObj h => λ st,
      let s := st_streams st h in
      if s_closed s then (Raise ValueError, st)
      else match s_data s with
           | Some text =>
               (Return text,
                set_stream h {| s_name := s_name s; s_repr := s_repr s;
                                s_data := Some ""; s_closed := false |} st)
           | None => (Raise IOError, st)
           end
  | OwnFile _ (Readable text) => mret text
  | OwnFile _ Unreadable => raise IOError
  end.

(** [fp.close()] *)
Definition fp_close (fp : fileobj) : prog unit := λ st,
  match fp with
  | StreamObj h =>
      let s := st_streams st h in
      (Return tt,
       set_stream h {| s_name := s_name s; s_repr := s_repr s;
                       s_data := s_data s; s_closed := true |} st)
  | OwnFile filename _ => (Return tt, log (EvClose filename) st)
  end.

(** [json.load(fp)] *)
Definition json_load (fp : fileobj) : prog json :=
  text ← fp_read fp;
  match json_loads text with
  | Some obj => mret obj
  | None => raise ValueError
  end.

(** [str(filename_or_io)], as the [%s] of an error message shows it *)
Definition py_str (filename_or_io : source) : prog string :=
  match filename_or_io with
  | Path filename => mret filename
  | Stream h => λ st, (Return (s_repr (st_streams st h)), st)
  end.

(** *** The loaders *)

Definition load (fp : nat) : prog (string * json) :=
  obj ← json_load (StreamObj fp);
  lift (_validate_clientsecrets obj).

Definition _loadfile (filename_or_io : source) : prog (string * json) :=
  obj ← try_except_IOError
    (fp ← match filename_or_io with
          | Stream h => mret (StreamObj h)
          | Path filename => file filename
          end;
     try_finally (json_load fp) (fp_close fp))
    (shown ← py_str filename_or_io;
     raise (FileNotFound shown));
  lift (_validate_clientsecrets obj).

(** The cache key: the path itself, or the stream's [name] attribute
    ([AttributeError] for a stream without one). *)
Definition _get_name (filename_or_io : source) : prog string :=
  match filename_or_io with
  | Stream h => λ st,
      match s_name (st_streams st h) with
      | Some name => (Return name, st)
      | None => (Raise AttributeError, st)
      end
  | Path filename => mret filename
  end.

(** [cache.get(key, namespace=ns)] and [cache.set(key, value, namespace=ns)]
    on the cache object [c] *)
Definition call_get (c : nat) (key ns : string) : prog json := λ st,
  (Return (cache_get (st_caches st c) key ns), st).

Definition call_set (c : nat) (key : string) (value : json) (ns : string)
    : prog unit := λ st,
  (Return tt, set_cache c (cache_set (st_caches st c) key value ns) st).

Definition _SECRET_NAMESPACE : string := "oauth2client:secrets#ns".

(** [bool(cache)]: [None] is false, a cache object has the truth value
    its present content gives it. *)
Definition py_bool (cache : option nat) : prog bool := λ st,
  (Return match cache with
          | None => false
          | Some c => cache_truth (st_caches st c)
          end, st).

(** [cache] is [None] when no cache is given, and a reference to the cache
    object otherwise; [if not cache] sends [None] and every cache object
    that is false to the loader. [obj is None] tells a miss. *)
Definition loadfile (filename_or_io : source) (cache : option nat)
    : prog (string * json) :=
  usable ← py_bool cache;
  match cache with
  | Some c =>
      if negb usable then _loadfile filename_or_io else
      key ← _get_name filename_or_io;
      obj ← call_get c key _SECRET_NAMESPACE;
      obj ← match obj with
            | JNull =>
                '(client_type, client_info) ← _loadfile filename_or_io;
                let obj := JObj {[ client_type := client_info ]} in
                key ← _get_name filename_or_io;
                _ ← call_set c key obj _SECRET_NAMESPACE;
                mret obj
            | _ => mret obj
            end;
      lift (py_iteritems_next obj)
  | None => _loadfile filename_or_io
  end.

End Loader.

(** Running a program on a state: unfold the combinators and compute. *)
Ltac run :=
  repeat (unfold mbind, prog_bind, mret, prog_ret, raise, lift, try_finally,
            try_except_IOError, file, fp_read, fp_close, py_str; cbn).

(** Entering [loadfile] with a cache object whose truth value [Htruth]
    tells. *)
Ltac enter_loadfile Htruth :=
  unfold loadfile, py_bool; unfold mbind at 1, prog_bind at 1;
  cbv beta iota; rewrite Htruth; cbn [negb].

Arguments state C : clear implicits.
Arguments prog C A : clear implicits.

(** ** What a source offers to a reader *)

(** The text a first [read] of the source yields: the content of a readable
    file, or what is left in a stream that is still open. *)
Definition source_text {C : Type} (st : state C) (filename_or_io : source)
    : option string :=
  match filename_or_io with
  | Path filename =>
      match st_fs st !! filename with
      | Some (Readable text) => Some text
      | _ => None
      end
  | Stream h =>
      if s_closed (st_streams st h) then None else s_data (st_streams st h)
  end.

(** The path cannot be opened, or cannot be read once opened. *)
Definition io_fails {C : Type} (st : state C) (filename : string) : Prop :=
  st_fs st !! filename = None ∨ st_fs st !! filename = Some Unreadable.

(** ** A decoder for a fragment of JSON

    An instance of the [decoder] parameter for the examples: [null],
    [true], [false], integers, strings without escapes, arrays and objects,
    with white space between tokens. *)
Module JsonFragment.

Definition is_ws (c : ascii) : bool :=
  (c =? " ")%char || (c =? "010")%char || (c =? "009")%char
  || (c =? "013")%char.

Definition is_digit (c : ascii) : bool :=
  (48 <=? nat_of_ascii c)%nat && (nat_of_ascii c <=? 57)%nat.

Fixpoint skip_ws (s : string) : string :=
  match s with
  | String c s' => if is_ws c then skip_ws s' else s
  | EmptyString => s
  end.

(** the digits at the head of [s], as a number, and the rest of [s] *)
Fixpoint digits (acc : Z) (s : string) : Z * string :=
  match s with
  | String c s' =>
      if is_digit c
      then digits (10 * acc + Z.of_nat (nat_of_ascii c - 48)) s'
      else (acc, s)
  | EmptyString => (acc, s)
  end.

(** the characters up to the closing quote, and what follows it *)
Fixpoint chars (s : string) : option (string * string) :=
  match s with
  | String c s' =>
      if (c =? "034")%char then Some (EmptyString, s')
      else if (c =? "\")%char then None
      else '(body, rest) ← chars s'; Some (String c body, rest)
  | EmptyString => None
  end.

Definition starts_digit (s : string) : bool :=
  match s with
  | String c _ => is_digit c
  | EmptyString => false
  end.

Definition literal (word : string) (v : json) (s : string)
    : option (json * string) :=
  if String.prefix word s
  then Some (v, String.substring (String.length word)
                  (String.length s - String.length word) s)
  else None.

Fixpoint value (fuel : nat) (s : string) : option (json * string) :=
  match fuel with
  | 0 => None
  | S fuel =>
      match skip_ws s with
      | String c rest =>
          if (c =? "[")%char then
            match skip_ws rest with
            | String "]" rest' => Some (JArr [], rest')
            | _ => elements fuel rest []
            end
          else if (c =? "{")%char then
            match skip_ws rest with
            | String "}" rest' => Some (JObj ∅, rest')
            | _ => members fuel rest ∅
            end
          else if (c =? "034")%char then
            '(body, rest') ← chars rest; Some (JStr body, rest')
          else if (c =? "-")%char then
            if starts_digit rest
            then let '(n, rest') := digits 0 rest in Some (JInt (- n), rest')
            else None
          else if is_digit c then
            let '(n, rest') := digits 0 (String c rest) in Some (JInt n, rest')
          else if (c =? "n")%char then literal "null" JNull (String c rest)
          else if (c =? "t")%char
          then literal "true" (JBool true) (String c rest)
          else if (c =? "f")%char
          then literal "false" (JBool false) (String c rest)
          else None
      | EmptyString => None
      end
  end
with elements (fuel : nat) (s : string) (acc : list json)
    : option (json * string) :=
  match fuel with
  | 0 => None
  | S fuel =>
      '(v, rest) ← value fuel s;
      match skip_ws rest with
      | String "," rest' => elements fuel rest' (acc ++ [v])
      | String "]" rest' => Some (JArr (acc ++ [v]), rest')
      | _ => None
      end
  end
with members (fuel : nat) (s : string) (acc : gmap string json)
    : option (json * string) :=
  match fuel with
  | 0 => None
  | S fuel =>
      match skip_ws s with
      | String c rest =>
          if (c =? "034")%char then
            '(key, rest) ← chars rest;
            match skip_ws rest with
            | String ":" rest =>
                '(v, rest) ← value fuel rest;
                match skip_ws rest with
                | String "," rest' => members fuel rest' (<[key := v]> acc)
                | String "}" rest' => Some (JObj (<[key := v]> acc), rest')
                | _ => None
                end
            | _ => None
            end
          else None
      | EmptyString => None
      end
  end.

Definition json_loads : decoder := λ s,
  '(v, rest) ← value (2 * String.length s + 2) s;
  match skip_ws rest with
  | EmptyString => Some v
  | _ => None
  end.

(** Example texts are written with single quotes for readability. *)
Fixpoint text (s : string) : string :=
  match s with
  | String c s' => String (if (c =? "'")%char then "034"%char else c) (text s')
  | EmptyString => EmptyString
  end.

End JsonFragment.

(** ** Predicates on a field mapping *)

(** The mapping has the property [f]. *)
Definition has_prop (client_info : gmap string json) (f : string) : bool :=
  bool_decide (is_Some (client_info !! f)).

(** The value of [f] is text that starts with the placeholder marker. *)
Definition is_placeholder (client_info : gmap string json) (f : string)
    : bool :=
  match client_info !! f with
  | Some (JStr s) => String.prefix "[[" s
  | _ => false
  end.

(** The value of [f] is text that does not start with the marker. *)
Definition is_configured (client_info : gmap string json) (f : string)
    : bool :=
  match client_info !! f with
  | Some (JStr s) => negb (String.prefix "[[" s)
  | _ => false
  end.

(** The value of [f], when there is one, is text. *)
Definition text_or_absent (client_info : gmap string json) (f : string)
    : bool :=
  match client_info !! f with
  | Some (JStr _) | None => true
  | Some _ => false
  end.

(** A field mapping whose [client_id] and [client_secret], when present,
    are text. *)
Definition well_shaped (v : json) : bool :=
  match v with
  | JObj m => forallb (text_or_absent m) ["client_id"; "client_secret"]
  | _ => false
  end.

(** [f in client_info] is evaluated and true. *)
Definition holds_prop (client_info : json) (f : string) : bool :=
  match py_in f client_info with
  | Return present => present
  | Raise _ => false
  end.

(** The value is a list or a string: [in] works on it, indexing by a name
    does not. *)
Definition is_sequence (v : json) : bool :=
  match v with
  | JArr _ | JStr _ => true
  | _ => false
  end.

(** The value is [None], or an object, a list or a string whose length
    is not one. *)
Definition wrong_length (obj : json) : Prop :=
  match obj with
  | JNull => True
  | JObj m => size m ≠ 1
  | JArr l => length l ≠ 1
  | JStr s => py_strlen s ≠ 1
  | _ => False
  end.

(** ** A dictionary-backed cache

    The simplest cache client: an object with the two methods that keeps a
    dictionary indexed by namespace and key, and whose [get] answers
    [None] for a key it does not hold. As an object without [__len__] it
    is always true. *)
#[global] Instance dict_cache : Cache (gmap (string * string) json) := {|
  cache_truth c := true;
  cache_get c key ns := default JNull (c !! (ns, key));
  cache_set c key value ns := <[(ns, key) := value]> c;
|}.

(** A cache client that is itself a container, with [__len__] the number
    of its entries: it is false while it is empty. *)
Record sized_cache : Type := SizedCache {
  entries : gmap (string * string) json;
}.

#[global] Instance sized_cache_Cache : Cache sized_cache := {|
  cache_truth c := negb (size (entries c) =? 0)%nat;
  cache_get c key ns := default JNull (entries c !! (ns, key));
  cache_set c key value ns := SizedCache (<[(ns, key) := value]> (entries c));
|}.

(** ** Example documents and worlds *)
Module Example.

Definition info : gmap string json :=
  {[ "client_id" := JStr "id1"; "client_secret" := JStr "s1";
     "redirect_uris" := JArr []; "auth_uri" := JStr "https://a";
     "token_uri" := JStr "https://b" ]}.

Definition installed_text : string :=
  JsonFragment.text
    "{'installed': {'client_id': 'id1', 'client_secret': 's1',
       'redirect_uris': [], 'auth_uri': 'https://a',
       'token_uri': 'https://b'}}".

(** [client_secret] still holds the template's placeholder *)
Definition placeholder_secret : gmap string json :=
  <["client_secret" := JStr "[[secret]]"]> info.

(** [client_id] is a number, [client_secret] a placeholder *)
Definition numeric_id : gmap string json :=
  <["client_id" := JInt 5]> placeholder_secret.

Definition no_token_uri : gmap string json := delete "token_uri" info.

Definition closed_stream : stream :=
  {| s_name := None; s_repr := "<closed>"; s_data := None; s_closed := true |}.

Definition open_stream (name content : string) : stream :=
  {| s_name := Some name; s_repr := "<stream " +:+ name +:+ ">";
     s_data := Some content; s_closed := false |}.

(** A file system with a valid document, a file that is not JSON and a
    file whose reading fails; stream 0 holds the valid document, stream 1 text that is
    not JSON, stream 2 a document of an unknown type; every cache is
    empty. *)
Definition world : state (gmap (string * string) json) :=
  {| st_fs := {[ "secrets.json" := Readable installed_text;
                 "broken.json" := Readable "{";
                 "faulty.json" := Unreadable ]};
     st_streams :=
       <[0 := open_stream "secrets.json" installed_text]>
       (<[1 := open_stream "broken.json" "{"]>
       (<[2 := open_stream "other.json" (JsonFragment.text "{'service': {}}")]>
        (λ _, closed_stream)));
     st_caches := λ _, ∅;
     st_trace := [] |}.

(** The same world after cache 0 was given an entry for [key]. *)
Definition with_entry (key : string) (value : json)
    : state (gmap (string * string) json) :=
  set_cache 0 (cache_set (st_caches world 0) key value _SECRET_NAMESPACE) world.

End Example.

(** Two more streams for the example world: stream 3 is open and its
    reading fails, stream 4 is open, holds the valid document and has no
    [name] attribute. *)
Module Example2.

Definition failing_stream : stream :=
  {| s_name := Some "tape"; s_repr := "<stream tape>";
     s_data := None; s_closed := false |}.

Definition nameless_stream : stream :=
  {| s_name := None; s_repr := "<StringIO>";
     s_data := Some Example.installed_text; s_closed := false |}.

Definition world : state (gmap (string * string) json) :=
  set_stream 3 failing_stream (set_stream 4 nameless_stream Example.world).

End Example2.

(** The example world with container caches in place of the dictionary
    caches, all of them empty. *)
Module Example3.

Definition world : state sized_cache :=
  {| st_fs := st_fs Example.world;
     st_streams := st_streams Example.world;
     st_caches := λ _, SizedCache ∅;
     st_trace := [] |}.

End Example3.

(** * Properties *)

(** ** Single-key objects *)

Lemma single_key_object (m : gmap string json) (k : string) (v : json) :
  size m = 1 → m !! k = Some v → m = {[ k := v ]}.
Proof.
  intros Hsize Hk.
  rewrite <- (insert_delete_id m k v Hk).
  assert (Hrest : delete k m = ∅).
  { apply map_size_empty_inv.
    rewrite map_size_delete_Some by eauto. rewrite Hsize. reflexivity. }
  rewrite Hrest. reflexivity.
Qed.

(** On an object with the single key [k] the validator looks [k] up in the
    schema table and runs the two loops on the value stored under [k]. *)
Lemma validate_single_key (k : string) (v : json) :
  _validate_clientsecrets (JObj {[ k := v ]}) =
  match VALID_CLIENT !! k with
  | None => Raise (UnknownClientType k)
  | Some schema =>
      _ ← check_required k v (required schema);
      _ ← check_string v (string_props schema);
      Return (k, v)
  end.
Proof.
  unfold _validate_clientsecrets. cbn -[VALID_CLIENT].
  rewrite map_size_singleton, map_to_list_singleton. cbn -[VALID_CLIENT].
  destruct (VALID_CLIENT !! k); [|reflexivity].
  rewrite lookup_singleton_eq. reflexivity.
Qed.

Lemma VALID_CLIENT_cases (t : string) (schema : client_schema) :
  VALID_CLIENT !! t = Some schema →
  (t = TYPE_WEB ∨ t = TYPE_INSTALLED) ∧
  required schema = ["client_id"; "client_secret"; "redirect_uris";
                     "auth_uri"; "token_uri"] ∧
  string_props schema = ["client_id"; "client_secret"].
Proof.
  unfold VALID_CLIENT. intros H.
  apply lookup_insert_Some in H as [[<- <-]|[_ H]]; [auto|].
  apply lookup_singleton_Some in H as [<- <-]. auto.
Qed.

Lemma VALID_CLIENT_unknown (k : string) :
  k ≠ TYPE_WEB → k ≠ TYPE_INSTALLED → VALID_CLIENT !! k = None.
Proof.
  intros Hweb Hinst. unfold VALID_CLIENT.
  rewrite lookup_insert_ne by congruence.
  apply lookup_singleton_ne. congruence.
Qed.

(** ** The loop over the required properties *)

Lemma check_required_present (t : string) (m : gmap string json)
    (props : list string) :
  forallb (has_prop m) props = true →
  check_required t (JObj m) props = Return tt.
Proof.
  induction props as [|f props IH]; [reflexivity|].
  cbn. intros [Hf Hprops]%andb_true_iff.
  unfold has_prop in Hf. rewrite Hf. cbn. exact (IH Hprops).
Qed.

Lemma check_required_absent (t : string) (m : gmap string json)
    (pre post : list string) (f : string) :
  forallb (has_prop m) pre = true →
  has_prop m f = false →
  check_required t (JObj m) (pre ++ f :: post) = Raise (MissingField f t).
Proof.
  intros Hpre Hf. induction pre as [|g pre IH].
  - cbn. unfold has_prop in Hf. rewrite Hf. reflexivity.
  - cbn in Hpre. apply andb_true_iff in Hpre as [Hg Hpre].
    cbn. unfold has_prop in Hg. rewrite Hg. cbn. exact (IH Hpre).
Qed.

(** A list with an absent property splits at its first absent property. *)
Lemma first_absent (m : gmap string json) (props : list string) (f : string) :
  f ∈ props → has_prop m f = false →
  ∃ pre g post, props = (pre ++ g :: post)%list ∧
    forallb (has_prop m) pre = true ∧ has_prop m g = false.
Proof.
  induction props as [|p props IH]; intros Hin Hf.
  - apply elem_of_nil in Hin as [].
  - destruct (has_prop m p) eqn:Hp.
    + apply elem_of_cons in Hin as [->|Hin]; [congruence|].
      destruct (IH Hin Hf) as (pre & g & post & -> & Hpre & Hg).
      exists (p :: pre), g, post. split; [reflexivity|]. split; [|exact Hg].
      cbn. rewrite Hp. exact Hpre.
    + exists [], p, props. split; [reflexivity|]. split; [reflexivity|exact Hp].
Qed.

(** ** The loop over the string properties *)

Lemma check_string_configured (m : gmap string json) (props : list string) :
  forallb (is_configured m) props = true →
  check_string (JObj m) props = Return tt.
Proof.
  induction props as [|f props IH]; [reflexivity|].
  cbn. intros [Hf Hprops]%andb_true_iff. unfold is_configured in Hf.
  destruct (m !! f) as [[| | | |s| |]|]; try discriminate.
  cbn. apply negb_true_iff in Hf. rewrite Hf. exact (IH Hprops).
Qed.

Lemma check_string_placeholder (m : gmap string json)
    (pre post : list string) (f : string) :
  forallb (is_configured m) pre = true →
  is_placeholder m f = true →
  check_string (JObj m) (pre ++ f :: post) = Raise (PlaceholderNotConfigured f).
Proof.
  intros Hpre Hf. induction pre as [|g pre IH].
  - cbn. unfold is_placeholder in Hf.
    destruct (m !! f) as [[| | | |s| |]|]; try discriminate.
    cbn. rewrite Hf. reflexivity.
  - cbn in Hpre. apply andb_true_iff in Hpre as [Hg Hpre].
    unfold is_configured in Hg. cbn.
    destruct (m !! g) as [[| | | |s| |]|]; try discriminate.
    cbn. apply negb_true_iff in Hg. rewrite Hg. exact (IH Hpre).
Qed.

(** ** The validator *)

(** Where the first check does reject: [None], and objects, arrays and
    strings whose length is not one. *)
Lemma validate_malformed (obj : json) :
  match obj with
  | JNull => True
  | JObj m => size m ≠ 1
  | JArr l => length l ≠ 1
  | JStr s => py_strlen s ≠ 1
  | _ => False
  end →
  _validate_clientsecrets obj = Raise MalformedDocument.
Proof.
  destruct obj; cbn; try contradiction; try reflexivity;
    intros Hlen; apply Nat.eqb_neq in Hlen;
    unfold _validate_clientsecrets; cbn; rewrite Hlen; reflexivity.
Qed.

(** A number or a boolean has no length. *)
Lemma validate_no_len (obj : json) :
  match obj with
  | JBool _ | JInt _ | JFloat _ _ => True
  | _ => False
  end →
  _validate_clientsecrets obj = Raise TypeError.
Proof. destruct obj; cbn; try contradiction; reflexivity. Qed.

(** C1: a parsed value that is not an object is to be rejected as a
    malformed document. The check [len(obj) != 1] lets every array and
    string of length one through to [obj.keys()], and asks a number for
    its length: on a one-element array and on a one-character string the
    validator stops with [AttributeError], on a number with [TypeError],
    none of them the module's validation error. *)
Theorem validate_non_object_crashes :
  _validate_clientsecrets (JArr [JInt 1]) = Raise AttributeError ∧
  _validate_clientsecrets (JStr "x") = Raise AttributeError ∧
  _validate_clientsecrets (JInt 1) = Raise TypeError.
Proof. repeat split; reflexivity. Qed.

(** C3: for every type [t] of the schema table and every document that is
    an object whose single key is [t], stored with a field mapping [m] that
    has all of [t]'s required properties and whose string properties are
    text not starting with the placeholder marker, the validator returns
    the pair of [t] and [m], the mapping as it was stored. *)
Theorem validate_accepts (t : string) (schema : client_schema)
    (doc m : gmap string json) :
  VALID_CLIENT !! t = Some schema →
  size doc = 1 → doc !! t = Some (JObj m) →
  forallb (has_prop m) (required schema) = true →
  forallb (is_configured m) (string_props schema) = true →
  _validate_clientsecrets (JObj doc) = Return (t, JObj m).
Proof.
  intros Ht Hsize Hdoc Hreq Hstr.
  rewrite (single_key_object doc t (JObj m) Hsize Hdoc).
  rewrite validate_single_key, Ht.
  rewrite (check_required_present t m _ Hreq). cbn.
  rewrite (check_string_configured m _ Hstr). reflexivity.
Qed.

Lemma validate_accepts_witness :
  _validate_clientsecrets (JObj {[ "installed" := JObj Example.info ]})
  = Return ("installed", JObj Example.info).
Proof.
  apply (validate_accepts "installed"
           {| required := ["client_id"; "client_secret"; "redirect_uris";
                           "auth_uri"; "token_uri"];
              string_props := ["client_id"; "client_secret"] |});
    reflexivity.
Defined.

(** The validator on a field mapping whose first absent required property
    is [g]. *)
Lemma validate_first_absent (t : string) (schema : client_schema)
    (m : gmap string json) (pre post : list string) (g : string) :
  VALID_CLIENT !! t = Some schema →
  required schema = (pre ++ g :: post)%list →
  forallb (has_prop m) pre = true → has_prop m g = false →
  _validate_clientsecrets (JObj {[ t := JObj m ]}) = Raise (MissingField g t).
Proof.
  intros Ht Hsplit Hpre Hg.
  rewrite validate_single_key, Ht, Hsplit.
  rewrite (check_required_absent t m pre post g Hpre Hg). reflexivity.
Qed.

(** C4, as stated, fails: the document whose single key [web] holds
    [None] is a single-key document of a type of the schema table, and
    the value stored under the key has none of the required properties;
    the validator stops with [TypeError] at [prop_name not in client_info],
    not with the missing-property error. *)
Lemma validate_missing_field_null :
  size ({[ "web" := JNull ]} : gmap string json) = 1 ∧
  is_Some (VALID_CLIENT !! "web") ∧
  holds_prop JNull "client_id" = false ∧
  _validate_clientsecrets (JObj {[ "web" := JNull ]}) = Raise TypeError ∧
  ∀ g, _validate_clientsecrets (JObj {[ "web" := JNull ]})
       ≠ Raise (MissingField g "web").
Proof.
  assert (Hrun : _validate_clientsecrets (JObj {[ "web" := JNull ]})
                 = Raise TypeError) by reflexivity.
  split; [reflexivity|]. split; [eexists; reflexivity|].
  split; [reflexivity|]. split; [exact Hrun|].
  intros g. rewrite Hrun. discriminate.
Qed.

(** C4, amended: for every document that is an object whose single key
    [t] is in the schema table, stored with a field mapping [m] that lacks
    a required property, the validator fails with the missing-property
    error that names [t] and the first required property [g] absent from
    [m]; nothing else about [m] matters. *)
Theorem validate_missing_field (t : string) (schema : client_schema)
    (doc m : gmap string json) (f : string) :
  VALID_CLIENT !! t = Some schema →
  size doc = 1 → doc !! t = Some (JObj m) →
  f ∈ required schema → has_prop m f = false →
  ∃ pre g post,
    required schema = (pre ++ g :: post)%list ∧
    forallb (has_prop m) pre = true ∧ has_prop m g = false ∧
    _validate_clientsecrets (JObj doc) = Raise (MissingField g t).
Proof.
  intros Ht Hsize Hdoc Hin Hf.
  destruct (first_absent m _ f Hin Hf) as (pre & g & post & Hsplit & Hpre & Hg).
  exists pre, g, post. repeat split; try assumption.
  rewrite (single_key_object doc t (JObj m) Hsize Hdoc).
  exact (validate_first_absent t schema m pre post g Ht Hsplit Hpre Hg).
Qed.

Lemma validate_missing_field_witness :
  ∃ pre g post,
    ["client_id"; "client_secret"; "redirect_uris"; "auth_uri"; "token_uri"]
      = (pre ++ g :: post)%list ∧
    forallb (has_prop Example.no_token_uri) pre = true ∧
    has_prop Example.no_token_uri g = false ∧
    _validate_clientsecrets (JObj {[ "web" := JObj Example.no_token_uri ]})
    = Raise (MissingField g "web").
Proof.
  apply (validate_missing_field "web"
           {| required := ["client_id"; "client_secret"; "redirect_uris";
                           "auth_uri"; "token_uri"];
              string_props := ["client_id"; "client_secret"] |}
           {[ "web" := JObj Example.no_token_uri ]} Example.no_token_uri
           "token_uri");
    try reflexivity.
  apply (bool_decide_unpack _). vm_compute. exact I.
Defined.

(** When exactly one required property is absent, it is the one named. *)
Lemma validate_missing_only_field (t : string) (schema : client_schema)
    (m : gmap string json) (f : string) :
  VALID_CLIENT !! t = Some schema →
  f ∈ required schema → has_prop m f = false →
  (∀ g, g ∈ required schema → has_prop m g = false → g = f) →
  _validate_clientsecrets (JObj {[ t := JObj m ]}) = Raise (MissingField f t).
Proof.
  intros Ht Hin Hf Honly.
  destruct (first_absent m _ f Hin Hf) as (pre & g & post & Hsplit & Hpre & Hg).
  rewrite (validate_first_absent t schema m pre post g Ht Hsplit Hpre Hg).
  rewrite (Honly g); [reflexivity| |exact Hg].
  rewrite Hsplit. apply elem_of_app. right. apply elem_of_cons. auto.
Qed.

(** The validator on a field mapping that has every required property and
    whose first string property holding a placeholder is [f]. *)
Lemma validate_first_placeholder (t : string) (schema : client_schema)
    (m : gmap string json) (pre post : list string) (f : string) :
  VALID_CLIENT !! t = Some schema →
  forallb (has_prop m) (required schema) = true →
  string_props schema = (pre ++ f :: post)%list →
  forallb (is_configured m) pre = true → is_placeholder m f = true →
  _validate_clientsecrets (JObj {[ t := JObj m ]})
  = Raise (PlaceholderNotConfigured f).
Proof.
  intros Ht Hreq Hsplit Hpre Hf.
  rewrite validate_single_key, Ht, Hsplit.
  rewrite (check_required_present t m _ Hreq). cbn.
  rewrite (check_string_placeholder m pre post f Hpre Hf). reflexivity.
Qed.

(** C5, as stated, fails: in the document below every required property
    of [web] is present and [client_secret] is text starting with the
    placeholder marker, but [client_id] is the number 5, and the validator
    stops with [AttributeError] on [client_id] before it looks at
    [client_secret]. *)
Lemma validate_placeholder_after_number :
  VALID_CLIENT !! "web" = Some
    {| required := ["client_id"; "client_secret"; "redirect_uris";
                    "auth_uri"; "token_uri"];
       string_props := ["client_id"; "client_secret"] |} ∧
  forallb (has_prop Example.numeric_id)
    ["client_id"; "client_secret"; "redirect_uris"; "auth_uri"; "token_uri"]
  = true ∧
  is_placeholder Example.numeric_id "client_secret" = true ∧
  _validate_clientsecrets (JObj {[ "web" := JObj Example.numeric_id ]})
  = Raise AttributeError ∧
  _validate_clientsecrets (JObj {[ "web" := JObj Example.numeric_id ]})
  ≠ Raise (PlaceholderNotConfigured "client_secret").
Proof.
  assert (Hrun : _validate_clientsecrets
                   (JObj {[ "web" := JObj Example.numeric_id ]})
                 = Raise AttributeError) by (vm_compute; reflexivity).
  split; [reflexivity|]. split; [reflexivity|]. split; [reflexivity|].
  split; [exact Hrun|]. rewrite Hrun. discriminate.
Qed.

(** C5, amended: for every document that is an object whose single key is
    a type [t] of the schema table, stored with a field mapping [m] that
    has all required properties, if [client_id] is text starting with the
    placeholder marker the validator fails with the not-configured error
    naming [client_id]; if [client_id] is text not starting with the
    marker and [client_secret] is text starting with it, the validator
    fails with the not-configured error naming [client_secret]. *)
Theorem validate_placeholder (t : string) (schema : client_schema)
    (doc m : gmap string json) :
  VALID_CLIENT !! t = Some schema →
  size doc = 1 → doc !! t = Some (JObj m) →
  forallb (has_prop m) (required schema) = true →
  (is_placeholder m "client_id" = true →
   _validate_clientsecrets (JObj doc)
   = Raise (PlaceholderNotConfigured "client_id")) ∧
  (is_configured m "client_id" = true →
   is_placeholder m "client_secret" = true →
   _validate_clientsecrets (JObj doc)
   = Raise (PlaceholderNotConfigured "client_secret")).
Proof.
  intros Ht Hsize Hdoc Hreq.
  rewrite (single_key_object doc t (JObj m) Hsize Hdoc).
  destruct (VALID_CLIENT_cases t schema Ht) as (_ & _ & Hstr).
  split.
  - intros Hid.
    apply (validate_first_placeholder t schema m [] ["client_secret"]);
      auto.
  - intros Hid Hsecret.
    apply (validate_first_placeholder t schema m ["client_id"] []); auto.
    cbn. rewrite Hid. reflexivity.
Qed.

Lemma validate_placeholder_witness :
  _validate_clientsecrets (JObj {[ "web" := JObj Example.placeholder_secret ]})
  = Raise (PlaceholderNotConfigured "client_secret").
Proof.
  apply (validate_placeholder "web"
           {| required := ["client_id"; "client_secret"; "redirect_uris";
                           "auth_uri"; "token_uri"];
              string_props := ["client_id"; "client_secret"] |}
           {[ "web" := JObj Example.placeholder_secret ]}
           Example.placeholder_secret); reflexivity.
Defined.

(** C6: for every document that is an object with exactly one key [k],
    when [k] is neither [web] nor [installed] the validator fails with the
    unknown-client-type error naming [k], whatever is stored under [k]. *)
Theorem validate_unknown_type (doc : gmap string json) (k : string)
    (v : json) :
  size doc = 1 → doc !! k = Some v →
  k ≠ TYPE_WEB → k ≠ TYPE_INSTALLED →
  _validate_clientsecrets (JObj doc) = Raise (UnknownClientType k).
Proof.
  intros Hsize Hdoc Hweb Hinst.
  rewrite (single_key_object doc k v Hsize Hdoc).
  rewrite validate_single_key, (VALID_CLIENT_unknown k Hweb Hinst).
  reflexivity.
Qed.

Lemma validate_unknown_type_witness :
  _validate_clientsecrets (JObj {[ "service" := JNull ]})
  = Raise (UnknownClientType "service").
Proof.
  apply (validate_unknown_type {[ "service" := JNull ]} "service" JNull);
    [reflexivity | reflexivity | discriminate | discriminate].
Defined.

(** The key set of the schema table. *)
Lemma VALID_CLIENT_keys : dom VALID_CLIENT = {[ TYPE_WEB; TYPE_INSTALLED ]}.
Proof. unfold VALID_CLIENT. rewrite dom_insert_L, dom_singleton_L. reflexivity. Qed.

(** ** The loader *)

Section LoaderProperties.
Context {C : Type} `{!Cache C}.
Variable json_loads : decoder.
Implicit Types (st : state C) (src : source) (h c : nat).

(** What [json.load] followed by the validator makes of a text. *)
Lemma loads_eq (text : string) :
  loads json_loads text =
  match json_loads text with
  | Some obj => _validate_clientsecrets obj
  | None => Raise ValueError
  end.
Proof. unfold loads. destruct (json_loads text); reflexivity. Qed.

Lemma load_text st h (text : string) :
  source_text st (Stream h) = Some text →
  (load json_loads h st).1 = loads json_loads text.
Proof.
  rewrite loads_eq. unfold source_text, load, json_load. run.
  destruct (s_closed (st_streams st h)); [discriminate|].
  intros ->. run. destruct (json_loads text); reflexivity.
Qed.

(** The loader on a source that can be read: the text is decoded and
    validated. *)
Lemma _loadfile_text st src (text : string) :
  source_text st src = Some text →
  (_loadfile json_loads src st).1 = loads json_loads text.
Proof.
  rewrite loads_eq.
  destruct src as [filename|h]; unfold source_text, _loadfile, json_load;
    run.
  - destruct (st_fs st !! filename) as [[text'|]|]; try discriminate.
    intros [= ->]. run. destruct (json_loads text); reflexivity.
  - destruct (s_closed (st_streams st h)); [discriminate|].
    intros ->. run. destruct (json_loads text); reflexivity.
Qed.

(** The loader touches neither the caches nor the file system, and no
    stream changes its name. *)
Lemma _loadfile_frame st src :
  st_caches (_loadfile json_loads src st).2 = st_caches st ∧
  st_fs (_loadfile json_loads src st).2 = st_fs st ∧
  ∀ h, s_name (st_streams (_loadfile json_loads src st).2 h)
       = s_name (st_streams st h).
Proof.
  destruct src as [filename|h0]; unfold _loadfile, json_load; run.
  - destruct (st_fs st !! filename) as [[text|]|]; run;
      [destruct (json_loads text); run|..]; auto.
  - assert (Hname : ∀ (f : nat → stream) s h,
              s_name s = s_name (f h0) → s_name (<[h0:=s]> f h) = s_name (f h)).
    { intros f s h Hs. destruct (decide (h0 = h)) as [<-|Hne].
      - rewrite fn_lookup_insert. exact Hs.
      - rewrite fn_lookup_insert_ne by exact Hne. reflexivity. }
    destruct (s_closed (st_streams st h0)); run;
      [|destruct (s_data (st_streams st h0)) as [text|]; run;
        [destruct (json_loads text); run|]];
      repeat split; intros h; repeat (rewrite Hname; [|try reflexivity]);
      try reflexivity; rewrite fn_lookup_insert; reflexivity.
Qed.

(** A stream handed to the loader is closed when the loader is done. *)
Lemma _loadfile_closes st h :
  s_closed (st_streams (_loadfile json_loads (Stream h) st).2 h) = true.
Proof.
  unfold _loadfile, json_load; run.
  destruct (s_closed (st_streams st h)); run;
    [|destruct (s_data (st_streams st h)) as [text|]; run;
      [destruct (json_loads text); run|]];
    rewrite fn_lookup_insert; reflexivity.
Qed.

(** A path that cannot be opened or read. *)
Lemma _loadfile_io_fails st (filename : string) :
  io_fails st filename →
  (_loadfile json_loads (Path filename) st).1 = Raise (FileNotFound filename).
Proof.
  unfold _loadfile, json_load. intros [Hfs|Hfs]; run; rewrite Hfs; reflexivity.
Qed.

(** The name of a source is read without changing the world, and the
    loader does not change it. *)
Lemma _get_name_state st src : (_get_name src st).2 = st.
Proof.
  destruct src as [filename|h]; [reflexivity|]. cbn.
  destruct (s_name (st_streams st h)); reflexivity.
Qed.

Lemma _get_name_after_loadfile st src src' :
  (_get_name src' (_loadfile json_loads src st).2).1 = (_get_name src' st).1.
Proof.
  destruct src' as [filename|h]; [reflexivity|]. cbn.
  destruct (_loadfile_frame st src) as (_ & _ & Hname). rewrite Hname.
  destruct (s_name (st_streams st h)); reflexivity.
Qed.

Lemma _get_name_run st src (key : string) :
  (_get_name src st).1 = Return key → _get_name src st = (Return key, st).
Proof.
  intros Hkey. rewrite (surjective_pairing (_get_name src st)).
  rewrite Hkey, _get_name_state. reflexivity.
Qed.

(** *** The cache-backed loader *)

Lemma loadfile_no_cache st src :
  loadfile json_loads src None st = _loadfile json_loads src st.
Proof. reflexivity. Qed.

(** A cache object that is false is passed over. *)
Lemma loadfile_falsy st src c :
  cache_truth (st_caches st c) = false →
  loadfile json_loads src (Some c) st = _loadfile json_loads src st.
Proof. intros Htruth. enter_loadfile Htruth. reflexivity. Qed.

(** On a miss the loader runs; its failure is passed on and nothing is
    stored, its pair is stored as a one-entry dictionary and returned. *)
Lemma loadfile_miss st src c (key : string) :
  cache_truth (st_caches st c) = true →
  (_get_name src st).1 = Return key →
  cache_get (st_caches st c) key _SECRET_NAMESPACE = JNull →
  loadfile json_loads src (Some c) st =
  match _loadfile json_loads src st with
  | (Return (client_type, client_info), st1) =>
      (Return (client_type, client_info),
       set_cache c
         (cache_set (st_caches st1 c) key
            (JObj {[ client_type := client_info ]}) _SECRET_NAMESPACE) st1)
  | (Raise e, st1) => (Raise e, st1)
  end.
Proof.
  intros Htruth Hkey Hmiss. enter_loadfile Htruth. unfold call_get, call_set.
  unfold mbind at 1, prog_bind at 1. rewrite (_get_name_run st src key Hkey).
  unfold mbind at 1, prog_bind at 1, mbind at 1, prog_bind at 1.
  rewrite Hmiss.
  unfold mbind at 1, prog_bind at 1.
  pose proof (_get_name_after_loadfile st src src) as Hkey'.
  destruct (_loadfile json_loads src st) as [[[client_type client_info]|e] st1];
    [|reflexivity].
  cbn in Hkey'. rewrite Hkey in Hkey'.
  unfold mbind at 1, prog_bind at 1.
  rewrite (_get_name_run st1 src key Hkey'). run.
  rewrite map_to_list_singleton. reflexivity.
Qed.

(** On a hit the stored entry is returned and the world stays as it is. *)
Lemma loadfile_hit st src c (key client_type : string) (client_info : json) :
  cache_truth (st_caches st c) = true →
  (_get_name src st).1 = Return key →
  cache_get (st_caches st c) key _SECRET_NAMESPACE
  = JObj {[ client_type := client_info ]} →
  loadfile json_loads src (Some c) st = (Return (client_type, client_info), st).
Proof.
  intros Htruth Hkey Hhit. enter_loadfile Htruth. unfold call_get.
  unfold mbind at 1, prog_bind at 1. rewrite (_get_name_run st src key Hkey).
  unfold mbind at 1, prog_bind at 1, mbind at 1, prog_bind at 1.
  rewrite Hhit. run. rewrite map_to_list_singleton. reflexivity.
Qed.

(** On a miss, whatever the truth value of the cache object: a cache that
    is false is passed over, and the loader runs all the same. *)
Lemma loadfile_miss_any st src c (key : string) :
  (_get_name src st).1 = Return key →
  cache_get (st_caches st c) key _SECRET_NAMESPACE = JNull →
  loadfile json_loads src (Some c) st =
  if cache_truth (st_caches st c) then
    match _loadfile json_loads src st with
    | (Return (client_type, client_info), st1) =>
        (Return (client_type, client_info),
         set_cache c
           (cache_set (st_caches st1 c) key
              (JObj {[ client_type := client_info ]}) _SECRET_NAMESPACE) st1)
    | (Raise e, st1) => (Raise e, st1)
    end
  else _loadfile json_loads src st.
Proof.
  intros Hkey Hmiss. destruct (cache_truth (st_caches st c)) eqn:Htruth.
  - exact (loadfile_miss st src c key Htruth Hkey Hmiss).
  - exact (loadfile_falsy st src c Htruth).
Qed.

(** *** Text that is not JSON *)

(** C2, amended: for every text the decoder rejects, [loads] on the text,
    and [load], [_loadfile] and [loadfile] (without a cache, or with a
    cache that has no entry for the source) on a source that yields the
    text, all fail with the decoder's [ValueError], which leaves the
    module as it is: it is not turned into the module's validation
    error. *)
Theorem unparseable_text_ValueError (text : string) :
  json_loads text = None →
  loads json_loads text = Raise ValueError ∧
  ∀ st src, source_text st src = Some text →
    (∀ h, src = Stream h → (load json_loads h st).1 = Raise ValueError) ∧
    (_loadfile json_loads src st).1 = Raise ValueError ∧
    (loadfile json_loads src None st).1 = Raise ValueError ∧
    ∀ c key,
      (_get_name src st).1 = Return key →
      cache_get (st_caches st c) key _SECRET_NAMESPACE = JNull →
      (loadfile json_loads src (Some c) st).1 = Raise ValueError.
Proof.
  intros Hbad.
  assert (Hloads : loads json_loads text = Raise ValueError)
    by (rewrite loads_eq, Hbad; reflexivity).
  split; [exact Hloads|]. intros st src Htext.
  assert (Hfile : (_loadfile json_loads src st).1 = Raise ValueError)
    by (rewrite (_loadfile_text st src text Htext); exact Hloads).
  repeat split.
  - intros h ->. rewrite (load_text st h text Htext). exact Hloads.
  - exact Hfile.
  - exact Hfile.
  - intros c key Hkey Hmiss.
    rewrite (loadfile_miss_any st src c key Hkey Hmiss).
    destruct (cache_truth (st_caches st c)); [|exact Hfile].
    destruct (_loadfile json_loads src st) as [[[t info]|e] st1];
      cbn in Hfile; [discriminate|]. exact Hfile.
Qed.

(** *** The cache-backed loader on a miss *)

(** C8, amended: for every call of [loadfile] with a cache that is true
    in a boolean context and whose [get] answers [None] for the source's
    name, the loader is called; when the
    loader returns a pair, the one-entry dictionary of that pair is stored
    in the cache under the same name and the module's namespace and the
    pair is returned; when the loader fails, its error is passed on and
    nothing is stored. *)
Theorem loadfile_on_miss st src c (key : string) :
  cache_truth (st_caches st c) = true →
  (_get_name src st).1 = Return key →
  cache_get (st_caches st c) key _SECRET_NAMESPACE = JNull →
  (∀ client_type client_info st1,
     _loadfile json_loads src st = (Return (client_type, client_info), st1) →
     loadfile json_loads src (Some c) st =
     (Return (client_type, client_info),
      set_cache c
        (cache_set (st_caches st1 c) key
           (JObj {[ client_type := client_info ]}) _SECRET_NAMESPACE) st1)) ∧
  (∀ e st1,
     _loadfile json_loads src st = (Raise e, st1) →
     loadfile json_loads src (Some c) st = (Raise e, st1)).
Proof.
  intros Htruth Hkey Hmiss.
  rewrite (loadfile_miss st src c key Htruth Hkey Hmiss).
  split; [intros client_type client_info st1 ->|intros e st1 ->]; reflexivity.
Qed.

(** *** Paths that cannot be read, streams that can *)

(** C9, amended: for every path whose opening or reading fails with an
    I/O error, [_loadfile], and [loadfile] without a cache or with a cache
    that has no entry for the path, fail with the file-not-found error
    naming the path; and for every open stream whose text decodes to a
    document the validator accepts, loading from the stream succeeds with
    the validated pair. *)
Theorem loading_path_and_stream st :
  (∀ filename : string, io_fails st filename →
     (_loadfile json_loads (Path filename) st).1
     = Raise (FileNotFound filename) ∧
     (loadfile json_loads (Path filename) None st).1
     = Raise (FileNotFound filename) ∧
     ∀ c, cache_get (st_caches st c) filename _SECRET_NAMESPACE = JNull →
       (loadfile json_loads (Path filename) (Some c) st).1
       = Raise (FileNotFound filename)) ∧
  (∀ h (text : string) (obj : json) (client_type : string)
     (client_info : json),
     source_text st (Stream h) = Some text →
     json_loads text = Some obj →
     _validate_clientsecrets obj = Return (client_type, client_info) →
     (_loadfile json_loads (Stream h) st).1
     = Return (client_type, client_info) ∧
     (loadfile json_loads (Stream h) None st).1
     = Return (client_type, client_info) ∧
     ∀ c key,
       (_get_name (Stream h) st).1 = Return key →
       cache_get (st_caches st c) key _SECRET_NAMESPACE = JNull →
       (loadfile json_loads (Stream h) (Some c) st).1
       = Return (client_type, client_info)).
Proof.
  split.
  - intros filename Hio.
    pose proof (_loadfile_io_fails st filename Hio) as Hfile.
    repeat split; try exact Hfile.
    intros c Hmiss.
    rewrite (loadfile_miss_any st (Path filename) c filename eq_refl Hmiss).
    destruct (cache_truth (st_caches st c)); [|exact Hfile].
    destruct (_loadfile json_loads (Path filename) st) as [[[t info]|e] st1];
      cbn in Hfile; [discriminate|]. exact Hfile.
  - intros h text obj client_type client_info Htext Hobj Hvalid.
    assert (Hfile : (_loadfile json_loads (Stream h) st).1
                    = Return (client_type, client_info)).
    { rewrite (_loadfile_text st (Stream h) text Htext), loads_eq, Hobj.
      exact Hvalid. }
    repeat split; try exact Hfile.
    intros c key Hkey Hmiss.
    rewrite (loadfile_miss_any st (Stream h) c key Hkey Hmiss).
    destruct (cache_truth (st_caches st c)); [|exact Hfile].
    destruct (_loadfile json_loads (Stream h) st) as [[[t info]|e] st1];
      cbn in Hfile; [|discriminate].
    injection Hfile as -> ->. reflexivity.
Qed.

(** *** Streams are closed *)

(** C10: every stream passed to [_loadfile], directly or by [loadfile]
    (called without a cache, or with a cache that has no entry for the
    stream's name), is closed when the call is over, whether the call
    returns a pair or raises: after success, after a decoding failure and
    after a validation failure alike. *)
Theorem stream_closed_after_loadfile st h :
  s_closed (st_streams (_loadfile json_loads (Stream h) st).2 h) = true ∧
  s_closed (st_streams (loadfile json_loads (Stream h) None st).2 h) = true ∧
  ∀ c key,
    (_get_name (Stream h) st).1 = Return key →
    cache_get (st_caches st c) key _SECRET_NAMESPACE = JNull →
    s_closed (st_streams (loadfile json_loads (Stream h) (Some c) st).2 h)
    = true.
Proof.
  pose proof (_loadfile_closes st h) as Hclosed.
  repeat split; try exact Hclosed.
  intros c key Hkey Hmiss.
  rewrite (loadfile_miss_any st (Stream h) c key Hkey Hmiss).
  destruct (cache_truth (st_caches st c)); [|exact Hclosed].
  destruct (_loadfile json_loads (Stream h) st) as [[[t info]|e] st1];
    exact Hclosed.
Qed.

(** *** The cache round trip *)

Section RoundTrip.
Hypothesis get_set : ∀ (x : C) (key : string) (value : json) (ns : string),
  cache_get (cache_set x key value ns) key ns = value.
Hypothesis set_truth : ∀ (x : C) (key : string) (value : json) (ns : string),
  cache_truth (cache_set x key value ns) = true.

(** C7, amended: take a source whose text decodes to a document the
    validator accepts, and a cache that is true in a boolean context, when
    [loadfile] is called and once it has stored an entry, that answers
    what was last stored under a name, and that has no entry for the
    source's name. The first [loadfile] returns
    the validated pair and leaves the one-entry dictionary of that pair in
    the cache under the name and the module's namespace; every later
    [loadfile] with a source of that name and this cache content returns
    the same pair and leaves the world as it found it: nothing is opened,
    read or validated. *)
Theorem cache_round_trip st src c (key text : string) (obj : json)
    (client_type : string) (client_info : json) :
  cache_truth (st_caches st c) = true →
  (_get_name src st).1 = Return key →
  cache_get (st_caches st c) key _SECRET_NAMESPACE = JNull →
  source_text st src = Some text →
  json_loads text = Some obj →
  _validate_clientsecrets obj = Return (client_type, client_info) →
  ∃ st1,
    loadfile json_loads src (Some c) st
    = (Return (client_type, client_info), st1) ∧
    cache_get (st_caches st1 c) key _SECRET_NAMESPACE
    = JObj {[ client_type := client_info ]} ∧
    ∀ st2 src2,
      (_get_name src2 st2).1 = Return key →
      st_caches st2 c = st_caches st1 c →
      loadfile json_loads src2 (Some c) st2
      = (Return (client_type, client_info), st2).
Proof.
  intros Htruth Hkey Hmiss Htext Hobj Hvalid.
  pose proof (_loadfile_text st src text Htext) as Hfile.
  rewrite loads_eq, Hobj, Hvalid in Hfile.
  rewrite (loadfile_miss st src c key Htruth Hkey Hmiss).
  destruct (_loadfile json_loads src st) as [[[t info]|e] st1];
    cbn in Hfile; [|discriminate].
  injection Hfile as -> ->.
  eexists. split; [reflexivity|].
  assert (Hstored :
    cache_get
      (st_caches
         (set_cache c
            (cache_set (st_caches st1 c) key
               (JObj {[ client_type := client_info ]}) _SECRET_NAMESPACE)
            st1) c) key _SECRET_NAMESPACE
    = JObj {[ client_type := client_info ]}).
  { cbn. rewrite fn_lookup_insert. apply get_set. }
  split; [exact Hstored|].
  intros st2 src2 Hkey2 Hsame.
  apply (loadfile_hit st2 src2 c key); [|exact Hkey2|].
  - rewrite Hsame. cbn. rewrite fn_lookup_insert. apply set_truth.
  - rewrite Hsame. exact Hstored.
Qed.

End RoundTrip.

End LoaderProperties.

(** ** The loaders on the example world *)

Lemma dict_cache_get_set (x : gmap (string * string) json)
    (key : string) (value : json) (ns : string) :
  cache_get (cache_set x key value ns) key ns = value.
Proof. cbn. rewrite lookup_insert_eq. reflexivity. Qed.

(** C2, as stated, fails: the text of one opening brace is not JSON, and
    [loads] on it, [load] on a stream holding it and [_loadfile] on a file
    holding it raise [ValueError], which is not the module's validation
    error. *)
Lemma unparseable_text_not_wrapped :
  JsonFragment.json_loads "{" = None ∧
  loads JsonFragment.json_loads "{" = Raise ValueError ∧
  (load JsonFragment.json_loads 1 Example.world).1 = Raise ValueError ∧
  (_loadfile JsonFragment.json_loads (Path "broken.json") Example.world).1
  = Raise ValueError ∧
  ¬ ∃ msg, loads JsonFragment.json_loads "{"
           = Raise (InvalidClientSecretsError msg).
Proof.
  assert (Hrun : loads JsonFragment.json_loads "{" = Raise ValueError)
    by reflexivity.
  repeat split; try reflexivity.
  rewrite Hrun. intros [msg Hmsg]. discriminate.
Qed.

Lemma unparseable_text_ValueError_witness :
  loads JsonFragment.json_loads "{" = Raise ValueError ∧
  (_loadfile JsonFragment.json_loads (Path "broken.json") Example.world).1
  = Raise ValueError.
Proof.
  destruct (unparseable_text_ValueError (C := gmap (string * string) json)
              JsonFragment.json_loads "{" eq_refl) as [Hloads Hsrc].
  split; [exact Hloads|].
  apply (Hsrc Example.world (Path "broken.json")). reflexivity.
Defined.

Lemma cache_round_trip_witness :
  ∃ st1,
    loadfile JsonFragment.json_loads (Path "secrets.json") (Some 0)
      Example.world
    = (Return ("installed", JObj Example.info), st1) ∧
    cache_get (st_caches st1 0) "secrets.json" _SECRET_NAMESPACE
    = JObj {[ "installed" := JObj Example.info ]} ∧
    ∀ st2 src2,
      (_get_name src2 st2).1 = Return "secrets.json" →
      st_caches st2 0 = st_caches st1 0 →
      loadfile JsonFragment.json_loads src2 (Some 0) st2
      = (Return ("installed", JObj Example.info), st2).
Proof.
  apply (cache_round_trip JsonFragment.json_loads dict_cache_get_set
           (λ _ _ _ _, eq_refl)
           Example.world (Path "secrets.json") 0 "secrets.json"
           Example.installed_text
           (JObj {[ "installed" := JObj Example.info ]}));
    reflexivity.
Defined.

Lemma sized_cache_get_set (x : sized_cache) (key : string) (value : json)
    (ns : string) :
  cache_get (cache_set x key value ns) key ns = value.
Proof. cbn. rewrite lookup_insert_eq. reflexivity. Qed.

(** C7, as stated, fails: cache 0 of this world is an empty container,
    which answers what was last stored in it and has no entry for
    [secrets.json], a file the loader accepts. Being empty it is false,
    and [if not cache] passes it over: the first [loadfile] returns the
    pair and stores nothing, and the second opens the file again. *)
Lemma loadfile_empty_container_cache :
  (∀ (x : sized_cache) key value ns,
     cache_get (cache_set x key value ns) key ns = value) ∧
  cache_get (st_caches Example3.world 0) "secrets.json" _SECRET_NAMESPACE
  = JNull ∧
  (loadfile JsonFragment.json_loads (Path "secrets.json") (Some 0)
     Example3.world).1 = Return ("installed", JObj Example.info) ∧
  cache_get
    (st_caches
       (loadfile JsonFragment.json_loads (Path "secrets.json") (Some 0)
          Example3.world).2 0) "secrets.json" _SECRET_NAMESPACE
  = JNull ∧
  st_trace
    (loadfile JsonFragment.json_loads (Path "secrets.json") (Some 0)
       (loadfile JsonFragment.json_loads (Path "secrets.json") (Some 0)
          Example3.world).2).2
  = [EvOpen "secrets.json"; EvClose "secrets.json";
     EvOpen "secrets.json"; EvClose "secrets.json"].
Proof. split; [exact sized_cache_get_set|]. repeat split; reflexivity. Qed.

(** C8, as stated, fails: cache 0 answers the empty dictionary for
    [secrets.json], a file the loader accepts; [loadfile] neither calls
    the loader (nothing is opened) nor returns a pair, it stops with
    [StopIteration]. *)
Lemma loadfile_empty_dict_entry :
  cache_get (st_caches (Example.with_entry "secrets.json" (JObj ∅)) 0)
    "secrets.json" _SECRET_NAMESPACE = JObj ∅ ∧
  (_loadfile JsonFragment.json_loads (Path "secrets.json")
     (Example.with_entry "secrets.json" (JObj ∅))).1
  = Return ("installed", JObj Example.info) ∧
  (loadfile JsonFragment.json_loads (Path "secrets.json") (Some 0)
     (Example.with_entry "secrets.json" (JObj ∅))).1
  = Raise StopIteration ∧
  st_trace
    (loadfile JsonFragment.json_loads (Path "secrets.json") (Some 0)
       (Example.with_entry "secrets.json" (JObj ∅))).2 = [].
Proof. repeat split; reflexivity. Qed.

Lemma loadfile_on_miss_witness :
  (loadfile JsonFragment.json_loads (Path "secrets.json") (Some 0)
     Example.world).1 = Return ("installed", JObj Example.info) ∧
  (loadfile JsonFragment.json_loads (Path "missing.json") (Some 0)
     Example.world).1 = Raise (FileNotFound "missing.json").
Proof.
  split.
  - destruct (loadfile_on_miss JsonFragment.json_loads Example.world
                (Path "secrets.json") 0 "secrets.json")
      as [Hok _]; [reflexivity..|].
    rewrite (Hok "installed" (JObj Example.info)
               (_loadfile JsonFragment.json_loads (Path "secrets.json")
                  Example.world).2); reflexivity.
  - destruct (loadfile_on_miss JsonFragment.json_loads Example.world
                (Path "missing.json") 0 "missing.json")
      as [_ Hfail]; [reflexivity..|].
    rewrite (Hfail (FileNotFound "missing.json") Example.world);
      reflexivity.
Defined.

(** C9, as stated, fails: no file is called [missing.json], but cache 0
    has an entry under that name, and [loadfile] with this cache returns
    the entry instead of failing. *)
Lemma loadfile_missing_path_cached :
  st_fs (Example.with_entry "missing.json"
           (JObj {[ "installed" := JObj Example.info ]})) !! "missing.json"
  = None ∧
  (loadfile JsonFragment.json_loads (Path "missing.json") (Some 0)
     (Example.with_entry "missing.json"
        (JObj {[ "installed" := JObj Example.info ]}))).1
  = Return ("installed", JObj Example.info).
Proof. split; reflexivity. Qed.

Lemma loading_path_and_stream_witness :
  (_loadfile JsonFragment.json_loads (Path "missing.json") Example.world).1
  = Raise (FileNotFound "missing.json") ∧
  (_loadfile JsonFragment.json_loads (Path "faulty.json") Example.world).1
  = Raise (FileNotFound "faulty.json") ∧
  (_loadfile JsonFragment.json_loads (Stream 0) Example.world).1
  = Return ("installed", JObj Example.info).
Proof.
  destruct (loading_path_and_stream JsonFragment.json_loads Example.world)
    as [Hpath Hstream].
  split; [|split].
  - apply (Hpath "missing.json"). left. reflexivity.
  - apply (Hpath "faulty.json"). right. reflexivity.
  - apply (Hstream 0 Example.installed_text
             (JObj {[ "installed" := JObj Example.info ]}));
      reflexivity.
Defined.

(** The three ways out of the loader, on streams 0, 1 and 2 of the example
    world: a pair, a decoding failure and a validation failure; each
    leaves its stream closed. *)
Lemma stream_closed_after_loadfile_witness :
  (_loadfile JsonFragment.json_loads (Stream 0) Example.world).1
  = Return ("installed", JObj Example.info) ∧
  (_loadfile JsonFragment.json_loads (Stream 1) Example.world).1
  = Raise ValueError ∧
  (_loadfile JsonFragment.json_loads (Stream 2) Example.world).1
  = Raise (UnknownClientType "service") ∧
  (∀ h, h < 3 →
     s_closed (st_streams Example.world h) = false ∧
     s_closed (st_streams
                 (_loadfile JsonFragment.json_loads (Stream h)
                    Example.world).2 h) = true) ∧
  s_closed (st_streams
              (loadfile JsonFragment.json_loads (Stream 0) (Some 0)
                 Example.world).2 0) = true.
Proof.
  split; [reflexivity|]. split; [reflexivity|]. split; [reflexivity|].
  split.
  - intros h Hh. split.
    + destruct h as [|[|[|h]]]; [reflexivity..|lia].
    + apply (stream_closed_after_loadfile JsonFragment.json_loads
               Example.world h).
  - apply (stream_closed_after_loadfile JsonFragment.json_loads
             Example.world 0) with (key := "secrets.json"); reflexivity.
Defined.

(** * Further properties of the validator *)

Lemma single_key_exists (m : gmap string json) :
  size m = 1 → ∃ k v, m = {[ k := v ]}.
Proof.
  intros Hsize.
  destruct (map_size_ne_0_lookup_1 m) as [k [v Hk]]; [lia|].
  exists k, v. exact (single_key_object m k v Hsize Hk).
Qed.

(** How the first loop can end. *)
Lemma check_required_cases (t : string) (client_info : json)
    (props : list string) :
  (check_required t client_info props = Return tt ∧
   forallb (holds_prop client_info) props = true) ∨
  (∃ pre g post, props = (pre ++ g :: post)%list ∧
     forallb (holds_prop client_info) pre = true ∧
     py_in g client_info = Return false ∧
     check_required t client_info props = Raise (MissingField g t)) ∨
  (check_required t client_info props = Raise TypeError ∧
   is_sequence client_info = false ∧
   ∀ m, client_info ≠ JObj m).
Proof.
  induction props as [|f props IH]; [left; split; reflexivity|].
  assert (Hholds : holds_prop client_info f
                   = match py_in f client_info with
                     | Return present => present
                     | Raise _ => false
                     end) by reflexivity.
  cbn [check_required forallb]. rewrite Hholds.
  destruct (py_in f client_info) as [[|]|e] eqn:Hin; cbn.
  - destruct IH as [[-> ->]|[(pre & g & post & -> & Hpre & Hg & ->)|IH]].
    + left. split; reflexivity.
    + right. left. exists (f :: pre), g, post.
      split; [reflexivity|]. split; [|split; [exact Hg|reflexivity]].
      cbn [forallb app]. rewrite Hholds. exact Hpre.
    + right. right. exact IH.
  - right. left. exists [], f, props. repeat split; assumption.
  - right. right.
    destruct client_info; cbn in Hin; try discriminate;
      injection Hin as <-; repeat split; intros m; discriminate.
Qed.

Lemma holds_prop_mapping (m : gmap string json) (f : string) :
  holds_prop (JObj m) f = has_prop m f.
Proof. reflexivity. Qed.

Lemma forallb_holds_prop_mapping (m : gmap string json)
    (props : list string) :
  forallb (holds_prop (JObj m)) props = forallb (has_prop m) props.
Proof. reflexivity. Qed.

(** How the second loop can end on a field mapping that has the
    properties it asks for. *)
Lemma check_string_cases (m : gmap string json) (props : list string) :
  forallb (has_prop m) props = true →
  (check_string (JObj m) props = Return tt ∧
   forallb (is_configured m) props = true) ∨
  (∃ pre g post, props = (pre ++ g :: post)%list ∧
     forallb (is_configured m) pre = true ∧ is_placeholder m g = true ∧
     check_string (JObj m) props = Raise (PlaceholderNotConfigured g)) ∨
  (∃ pre g post, props = (pre ++ g :: post)%list ∧
     forallb (is_configured m) pre = true ∧ text_or_absent m g = false ∧
     check_string (JObj m) props = Raise AttributeError).
Proof.
  induction props as [|f props IH]; [left; split; reflexivity|].
  cbn [forallb]. intros [Hf Hprops]%andb_true_iff.
  apply bool_decide_eq_true in Hf as [x Hx]. specialize (IH Hprops).
  assert (Hrun : check_string (JObj m) (f :: props)
                 = (placeholder ← py_startswith x "[[";
                    if (placeholder : bool)
                    then Raise (PlaceholderNotConfigured f)
                    else check_string (JObj m) props))
    by (cbn; rewrite Hx; reflexivity).
  rewrite Hrun. clear Hrun.
  destruct (text_or_absent m f) eqn:Htext.
  - unfold text_or_absent in Htext. rewrite Hx in Htext.
    destruct x as [| | | |s| |]; try discriminate. clear Htext.
    cbn [py_startswith]. change (Return ?b ≫= ?k) with (k b). cbn beta.
    destruct (String.prefix "[[" s) eqn:Hs.
    + right. left. exists [], f, props.
      split; [reflexivity|]. split; [reflexivity|]. split; [|reflexivity].
      unfold is_placeholder. rewrite Hx. exact Hs.
    + assert (Hconf : is_configured m f = true)
        by (unfold is_configured; rewrite Hx, Hs; reflexivity).
      rewrite Hconf. cbn [andb].
      destruct IH as [IH|[(pre & g & post & -> & Hpre & Hg & ->)
                         |(pre & g & post & -> & Hpre & Hg & ->)]].
      * left. exact IH.
      * right. left. exists (f :: pre), g, post.
        split; [reflexivity|]. split; [|split; [exact Hg|reflexivity]].
        cbn [forallb]. rewrite Hconf. exact Hpre.
      * right. right. exists (f :: pre), g, post.
        split; [reflexivity|]. split; [|split; [exact Hg|reflexivity]].
        cbn [forallb]. rewrite Hconf. exact Hpre.
  - right. right. exists [], f, props.
    split; [reflexivity|]. split; [reflexivity|]. split; [exact Htext|].
    unfold text_or_absent in Htext. rewrite Hx in Htext.
    destruct x; try discriminate; reflexivity.
Qed.

(** Indexing a list or a string by a property name. *)
Lemma check_string_sequence (client_info : json) (f : string)
    (props : list string) :
  is_sequence client_info = true →
  check_string client_info (f :: props) = Raise TypeError.
Proof. destruct client_info; try discriminate; reflexivity. Qed.

Lemma string_props_required (schema : client_schema) (t : string)
    (m : gmap string json) :
  VALID_CLIENT !! t = Some schema →
  forallb (has_prop m) (required schema) = true →
  forallb (has_prop m) (string_props schema) = true.
Proof.
  intros Ht. destruct (VALID_CLIENT_cases t schema Ht) as (_ & -> & ->).
  cbn. intros Hreq.
  apply andb_true_iff in Hreq as [-> Hreq].
  apply andb_true_iff in Hreq as [-> _]. reflexivity.
Qed.

Lemma string_props_members (schema : client_schema) (t : string)
    (pre post : list string) (g : string) :
  VALID_CLIENT !! t = Some schema →
  string_props schema = (pre ++ g :: post)%list →
  g = "client_id" ∨ g = "client_secret".
Proof.
  intros Ht. destruct (VALID_CLIENT_cases t schema Ht) as (_ & _ & ->).
  destruct pre as [|p1 [|p2 [|p3 pre]]]; cbn; intros [= ]; subst; auto.
Qed.

(** The validator on a field mapping stored under a known type: it
    returns the pair, or stops at the first absent required property, or
    at the first string property that is a placeholder or is not text. *)
Lemma validate_mapping_outcome (t : string) (schema : client_schema)
    (m : gmap string json) :
  VALID_CLIENT !! t = Some schema →
  (_validate_clientsecrets (JObj {[ t := JObj m ]}) = Return (t, JObj m) ∧
   forallb (has_prop m) (required schema) = true ∧
   forallb (is_configured m) (string_props schema) = true) ∨
  (∃ pre g post, required schema = (pre ++ g :: post)%list ∧
     forallb (has_prop m) pre = true ∧ has_prop m g = false ∧
     _validate_clientsecrets (JObj {[ t := JObj m ]})
     = Raise (MissingField g t)) ∨
  (forallb (has_prop m) (required schema) = true ∧
   ∃ pre g post, string_props schema = (pre ++ g :: post)%list ∧
     forallb (is_configured m) pre = true ∧ is_placeholder m g = true ∧
     _validate_clientsecrets (JObj {[ t := JObj m ]})
     = Raise (PlaceholderNotConfigured g)) ∨
  (forallb (has_prop m) (required schema) = true ∧
   ∃ pre g post, string_props schema = (pre ++ g :: post)%list ∧
     forallb (is_configured m) pre = true ∧ text_or_absent m g = false ∧
     _validate_clientsecrets (JObj {[ t := JObj m ]})
     = Raise AttributeError).
Proof.
  intros Ht. rewrite validate_single_key, Ht.
  destruct (check_required_cases t (JObj m) (required schema))
    as [[Hrun Hreq]|[(pre & g & post & Hsplit & Hpre & Hg & Hrun)
                    |(_ & _ & Hno)]].
  - rewrite Hrun. change (Return ?a ≫= ?k) with (k a). cbn beta.
    rewrite forallb_holds_prop_mapping in Hreq.
    destruct (check_string_cases m (string_props schema)
                (string_props_required schema t m Ht Hreq))
      as [[Hstr Hconf]|[(pre & g & post & Hsplit & Hpre & Hg & Hstr)
                       |(pre & g & post & Hsplit & Hpre & Hg & Hstr)]];
      rewrite Hstr.
    + left. auto.
    + right. right. left. split; [exact Hreq|]. exists pre, g, post. auto.
    + right. right. right. split; [exact Hreq|]. exists pre, g, post. auto.
  - right. left. exists pre, g, post. rewrite Hrun.
    rewrite forallb_holds_prop_mapping in Hpre.
    repeat split; try assumption.
    cbn in Hg. injection Hg as Hg. exact Hg.
  - destruct (Hno m eq_refl).
Qed.

(** The validator on a list or a string stored under a known type: the
    first loop asks whether each name is an element of the list or a
    substring of the string; when all are, the second loop indexes the
    value by a name. *)
Lemma validate_sequence_outcome (t : string) (schema : client_schema)
    (v : json) :
  VALID_CLIENT !! t = Some schema → is_sequence v = true →
  (forallb (holds_prop v) (required schema) = true ∧
   _validate_clientsecrets (JObj {[ t := v ]}) = Raise TypeError) ∨
  (∃ pre g post, required schema = (pre ++ g :: post)%list ∧
     forallb (holds_prop v) pre = true ∧ holds_prop v g = false ∧
     _validate_clientsecrets (JObj {[ t := v ]}) = Raise (MissingField g t)).
Proof.
  intros Ht Hseq. rewrite validate_single_key, Ht.
  destruct (check_required_cases t v (required schema))
    as [[Hrun Hreq]|[(pre & g & post & Hsplit & Hpre & Hg & Hrun)
                    |(_ & Hno & _)]].
  - left. split; [exact Hreq|]. rewrite Hrun.
    destruct (VALID_CLIENT_cases t schema Ht) as (_ & _ & ->).
    change (Return ?a ≫= ?k) with (k a). cbn beta.
    rewrite (check_string_sequence v _ _ Hseq). reflexivity.
  - right. exists pre, g, post. rewrite Hrun.
    repeat split; try assumption. unfold holds_prop. rewrite Hg. reflexivity.
  - congruence.
Qed.

(** [None], a boolean or a number stored under a known type. *)
Lemma validate_scalar_outcome (t : string) (schema : client_schema)
    (v : json) :
  VALID_CLIENT !! t = Some schema →
  match v with
  | JNull | JBool _ | JInt _ | JFloat _ _ => True
  | _ => False
  end →
  _validate_clientsecrets (JObj {[ t := v ]}) = Raise TypeError.
Proof.
  intros Ht Hv. rewrite validate_single_key, Ht.
  destruct (VALID_CLIENT_cases t schema Ht) as (_ & -> & _).
  destruct v; try contradiction; reflexivity.
Qed.

(** Every value is [None], a boolean or a number, or a list or a string,
    or a mapping. *)
Lemma json_kinds (v : json) :
  match v with
  | JNull | JBool _ | JInt _ | JFloat _ _ => True
  | _ => False
  end ∨ is_sequence v = true ∨ ∃ m, v = JObj m.
Proof. destruct v; cbn; eauto. Qed.

(** What a returned pair tells about the document. *)
Lemma validate_returns_inv (obj : json) (t : string) (info : json) :
  _validate_clientsecrets obj = Return (t, info) →
  ∃ schema m, obj = JObj {[ t := info ]} ∧ info = JObj m ∧
    VALID_CLIENT !! t = Some schema ∧
    forallb (has_prop m) (required schema) = true ∧
    forallb (is_configured m) (string_props schema) = true.
Proof.
  intros Hrun.
  destruct obj as [|b|n|mantissa exponent|s|l|doc];
    try (cbn in Hrun; discriminate).
  - unfold _validate_clientsecrets in Hrun. cbn in Hrun.
    destruct (py_strlen s =? 1)%nat; discriminate.
  - unfold _validate_clientsecrets in Hrun. cbn in Hrun.
    destruct (length l =? 1)%nat; discriminate.
  - destruct (decide (size doc = 1)) as [Hsize|Hsize].
    2: { rewrite (validate_malformed (JObj doc) Hsize) in Hrun. discriminate. }
    destruct (single_key_exists doc Hsize) as (k & v & ->).
    destruct (VALID_CLIENT !! k) as [schema|] eqn:Hk.
    2: { rewrite validate_single_key, Hk in Hrun. discriminate. }
    destruct (json_kinds v) as [Hv|[Hv|[m ->]]].
    + rewrite (validate_scalar_outcome k schema v Hk Hv) in Hrun. discriminate.
    + destruct (validate_sequence_outcome k schema v Hk Hv)
        as [[_ Hout]|(pre & g & post & _ & _ & _ & Hout)];
        rewrite Hout in Hrun; discriminate.
    + destruct (validate_mapping_outcome k schema m Hk)
        as [(Hout & Hreq & Hconf)
           |[(pre & g & post & _ & _ & _ & Hout)
            |[(_ & pre & g & post & _ & _ & _ & Hout)
             |(_ & pre & g & post & _ & _ & _ & Hout)]]];
        rewrite Hout in Hrun; try discriminate.
      injection Hrun as <- <-. exists schema, m. auto.
Qed.

Lemma validate_returns_intro (t : string) (schema : client_schema)
    (m : gmap string json) :
  VALID_CLIENT !! t = Some schema →
  forallb (has_prop m) (required schema) = true →
  forallb (is_configured m) (string_props schema) = true →
  _validate_clientsecrets (JObj {[ t := JObj m ]}) = Return (t, JObj m).
Proof.
  intros Ht Hreq Hstr. rewrite validate_single_key, Ht.
  rewrite (check_required_present t m _ Hreq). cbn.
  rewrite (check_string_configured m _ Hstr). reflexivity.
Qed.

Lemma validate_sequence_of_length_one (obj : json) :
  (∃ s, obj = JStr s ∧ py_strlen s = 1) ∨
  (∃ l, obj = JArr l ∧ length l = 1) →
  _validate_clientsecrets obj = Raise AttributeError.
Proof.
  intros [(s & -> & Hlen)|(l & -> & Hlen)];
    unfold _validate_clientsecrets; cbn; rewrite Hlen; reflexivity.
Qed.

(** What a raised exception tells about the document. *)
Lemma validate_raises_inv (obj : json) (e : exn) :
  _validate_clientsecrets obj = Raise e →
  (e = MalformedDocument ∧ wrong_length obj) ∨
  (∃ k v, obj = JObj {[ k := v ]} ∧ VALID_CLIENT !! k = None ∧
     e = UnknownClientType k) ∨
  (∃ t schema v pre g post, obj = JObj {[ t := v ]} ∧
     VALID_CLIENT !! t = Some schema ∧
     required schema = (pre ++ g :: post)%list ∧
     forallb (holds_prop v) pre = true ∧ holds_prop v g = false ∧
     e = MissingField g t) ∨
  (∃ t schema m g, obj = JObj {[ t := JObj m ]} ∧
     VALID_CLIENT !! t = Some schema ∧
     forallb (has_prop m) (required schema) = true ∧
     (g = "client_id" ∨ g = "client_secret") ∧
     is_placeholder m g = true ∧ e = PlaceholderNotConfigured g) ∨
  (e = TypeError ∧ ¬ wrong_length obj) ∨
  (e = AttributeError ∧ ¬ wrong_length obj).
Proof.
  intros Hrun.
  assert (Hmal : wrong_length obj →
            (e = MalformedDocument ∧ wrong_length obj) ∨
            (∃ k v, obj = JObj {[ k := v ]} ∧ VALID_CLIENT !! k = None ∧
               e = UnknownClientType k) ∨
            (∃ t schema v pre g post, obj = JObj {[ t := v ]} ∧
               VALID_CLIENT !! t = Some schema ∧
               required schema = (pre ++ g :: post)%list ∧
               forallb (holds_prop v) pre = true ∧ holds_prop v g = false ∧
               e = MissingField g t) ∨
            (∃ t schema m g, obj = JObj {[ t := JObj m ]} ∧
               VALID_CLIENT !! t = Some schema ∧
               forallb (has_prop m) (required schema) = true ∧
               (g = "client_id" ∨ g = "client_secret") ∧
               is_placeholder m g = true ∧ e = PlaceholderNotConfigured g) ∨
            (e = TypeError ∧ ¬ wrong_length obj) ∨
            (e = AttributeError ∧ ¬ wrong_length obj)).
  { intros Hlen. rewrite (validate_malformed obj Hlen) in Hrun.
    injection Hrun as <-. left. split; [reflexivity|exact Hlen]. }
  destruct obj as [|b|n|mantissa exponent|s|l|doc];
    try (apply Hmal; exact I);
    try (cbn in Hrun; injection Hrun as <-; do 4 right; left;
         split; [reflexivity|intros []]).
  - destruct (decide (py_strlen s = 1)) as [Hlen|Hlen]; [|exact (Hmal Hlen)].
    rewrite validate_sequence_of_length_one in Hrun by eauto.
    injection Hrun as <-. do 5 right. split; [reflexivity|]. cbn. lia.
  - destruct (decide (length l = 1)) as [Hlen|Hlen]; [|exact (Hmal Hlen)].
    rewrite validate_sequence_of_length_one in Hrun by eauto.
    injection Hrun as <-. do 5 right. split; [reflexivity|]. cbn. lia.
  - destruct (decide (size doc = 1)) as [Hsize|Hsize]; [|exact (Hmal Hsize)].
    clear Hmal.
    assert (Hlen : ¬ wrong_length (JObj doc)) by (cbn; lia).
    destruct (single_key_exists doc Hsize) as (k & v & ->).
    destruct (VALID_CLIENT !! k) as [schema|] eqn:Hk.
    2: { rewrite validate_single_key, Hk in Hrun. injection Hrun as <-.
         right. left. exists k, v. auto. }
    destruct (json_kinds v) as [Hv|[Hv|[m ->]]].
    + rewrite (validate_scalar_outcome k schema v Hk Hv) in Hrun.
      injection Hrun as <-. do 4 right. left. auto.
    + destruct (validate_sequence_outcome k schema v Hk Hv)
        as [[_ Hout]|(pre & g & post & Hsplit & Hpre & Hg & Hout)];
        rewrite Hout in Hrun; injection Hrun as <-.
      * do 4 right. left. auto.
      * right. right. left. exists k, schema, v, pre, g, post. auto 10.
    + destruct (validate_mapping_outcome k schema m Hk)
        as [(Hout & _)
           |[(pre & g & post & Hsplit & Hpre & Hg & Hout)
            |[(Hreq & pre & g & post & Hsplit & Hpre & Hg & Hout)
             |(Hreq & pre & g & post & Hsplit & Hpre & Hg & Hout)]]];
        rewrite Hout in Hrun; try discriminate; injection Hrun as <-.
      * right. right. left. exists k, schema, (JObj m), pre, g, post. auto 10.
      * do 3 right. left. exists k, schema, m, g.
        pose proof (string_props_members schema k pre post g Hk Hsplit).
        auto 10.
      * do 5 right. auto.
Qed.

(** The four messages of the validator differ from one another. *)
Lemma validation_errors_differ (k f t g : string) :
  MalformedDocument ≠ UnknownClientType k ∧
  MalformedDocument ≠ MissingField f t ∧
  MalformedDocument ≠ PlaceholderNotConfigured g ∧
  UnknownClientType k ≠ MissingField f t ∧
  UnknownClientType k ≠ PlaceholderNotConfigured g ∧
  MissingField f t ≠ PlaceholderNotConfigured g.
Proof. repeat split; discriminate. Qed.

(** A string of one character outside ASCII has length one. *)
Lemma validate_one_code_point :
  py_len (JStr "€") = Return 1 ∧
  _validate_clientsecrets (JStr "€") = Raise AttributeError.
Proof. split; reflexivity. Qed.

(** X1: the validator answers with the invalid-file-format error exactly
    on [None] and on objects, lists and strings whose length (for a
    string, its number of code points) is not one:
    no document with a single key gets that error, and a document with no
    key or with several always does, whatever the keys are. *)
Theorem validate_malformed_iff (obj : json) :
  _validate_clientsecrets obj = Raise MalformedDocument ↔ wrong_length obj.
Proof.
  split; [|exact (validate_malformed obj)].
  intros Hrun.
  destruct (validate_raises_inv obj _ Hrun)
    as [[_ Hlen]|[(k & v & _ & _ & He)
       |[(t & schema & v & pre & g & post & _ & _ & _ & _ & _ & He)
        |[(t & schema & m & g & _ & _ & _ & _ & _ & He)
         |[[He _]|[He _]]]]]];
    [exact Hlen|discriminate..].
Qed.

(** X2: the validator returns the pair of [t] and [info] exactly when the
    document is the object with the single key [t], [t] is in the schema
    table, and [info], the value stored under [t], is a field mapping that
    has every required property and whose string properties are text not
    starting with the placeholder marker. *)
Theorem validate_returns_iff (obj : json) (t : string) (info : json) :
  _validate_clientsecrets obj = Return (t, info) ↔
  ∃ schema m, obj = JObj {[ t := info ]} ∧ info = JObj m ∧
    VALID_CLIENT !! t = Some schema ∧
    forallb (has_prop m) (required schema) = true ∧
    forallb (is_configured m) (string_props schema) = true.
Proof.
  split; [exact (validate_returns_inv obj t info)|].
  intros (schema & m & -> & -> & Ht & Hreq & Hstr).
  exact (validate_returns_intro t schema m Ht Hreq Hstr).
Qed.

(** X3: whatever value the validator is given, the only exceptions it
    raises are the module's validation error, with one of its four
    messages, [TypeError] and [AttributeError]; it raises no [KeyError],
    since every string property is also a required one. *)
Theorem validate_failure_modes (obj : json) (e : exn) :
  _validate_clientsecrets obj = Raise e →
  e = MalformedDocument ∨
  (∃ k, e = UnknownClientType k) ∨
  (∃ g t, e = MissingField g t) ∨
  (∃ g, e = PlaceholderNotConfigured g) ∨
  e = TypeError ∨ e = AttributeError.
Proof.
  intros Hrun.
  destruct (validate_raises_inv obj _ Hrun)
    as [[He _]|[(k & v & _ & _ & He)
       |[(t & schema & v & pre & g & post & _ & _ & _ & _ & _ & He)
        |[(t & schema & m & g & _ & _ & _ & _ & _ & He)
         |[[He _]|[He _]]]]]]; eauto 10.
Qed.

Lemma validate_failure_modes_witness :
  AttributeError = MalformedDocument ∨
  (∃ k, AttributeError = UnknownClientType k) ∨
  (∃ g t, AttributeError = MissingField g t) ∨
  (∃ g, AttributeError = PlaceholderNotConfigured g) ∨
  AttributeError = TypeError ∨ AttributeError = AttributeError.
Proof.
  apply (validate_failure_modes
           (JObj {[ "web" := JObj Example.numeric_id ]}) AttributeError).
  reflexivity.
Defined.

(** X4: on an object whose values are field mappings with text, when
    present, for [client_id] and [client_secret], the validator returns a
    pair or raises the module's validation error: for documents of this
    shape no other exception leaves it. *)
Theorem validate_well_shaped (doc : gmap string json) :
  map_Forall (λ _ v, well_shaped v = true) doc →
  (∃ t info, _validate_clientsecrets (JObj doc) = Return (t, info)) ∨
  (∃ msg, _validate_clientsecrets (JObj doc)
          = Raise (InvalidClientSecretsError msg)).
Proof.
  intros Hshape.
  destruct (decide (size doc = 1)) as [Hsize|Hsize].
  2: { right. eexists. exact (validate_malformed (JObj doc) Hsize). }
  destruct (single_key_exists doc Hsize) as (k & v & ->).
  apply map_Forall_singleton in Hshape.
  destruct v as [| | | | | |m]; try discriminate.
  destruct (VALID_CLIENT !! k) as [schema|] eqn:Hk.
  2: { right. eexists. rewrite validate_single_key, Hk. reflexivity. }
  destruct (validate_mapping_outcome k schema m Hk)
    as [(Hout & _)
       |[(pre & g & post & _ & _ & _ & Hout)
        |[(_ & pre & g & post & _ & _ & _ & Hout)
         |(_ & pre & g & post & Hsplit & _ & Hg & Hout)]]].
  - left. eauto.
  - right. eexists. exact Hout.
  - right. eexists. exact Hout.
  - cbn in Hshape. apply andb_true_iff in Hshape as [Hid Hsecret].
    apply andb_true_iff in Hsecret as [Hsecret _].
    destruct (string_props_members schema k pre post g Hk Hsplit) as [->| ->];
      congruence.
Qed.

Lemma validate_well_shaped_witness :
  (∃ t info,
     _validate_clientsecrets
       (JObj {[ "web" := JObj Example.placeholder_secret ]})
     = Return (t, info)) ∨
  (∃ msg,
     _validate_clientsecrets
       (JObj {[ "web" := JObj Example.placeholder_secret ]})
     = Raise (InvalidClientSecretsError msg)).
Proof.
  apply (validate_well_shaped {[ "web" := JObj Example.placeholder_secret ]}).
  apply map_Forall_singleton. reflexivity.
Defined.

(** The first loop on any value: it stops at the first name the value
    does not hold. *)
Lemma check_required_first_absent (t : string) (v : json)
    (pre post : list string) (g : string) :
  forallb (holds_prop v) pre = true →
  py_in g v = Return false →
  check_required t v (pre ++ g :: post) = Raise (MissingField g t).
Proof.
  intros Hpre Hg. induction pre as [|f pre IH].
  - cbn. rewrite Hg. reflexivity.
  - cbn [forallb] in Hpre. apply andb_true_iff in Hpre as [Hf Hpre].
    unfold holds_prop in Hf. cbn [app check_required].
    destruct (py_in f v) as [[|]|]; try discriminate. exact (IH Hpre).
Qed.

Lemma check_required_all_held (t : string) (v : json) (props : list string) :
  forallb (holds_prop v) props = true →
  check_required t v props = Return tt.
Proof.
  induction props as [|f props IH]; [reflexivity|].
  cbn [forallb]. intros [Hf Hprops]%andb_true_iff.
  unfold holds_prop in Hf. cbn [check_required].
  destruct (py_in f v) as [[|]|]; try discriminate. exact (IH Hprops).
Qed.

(** X5: when the value stored under a known type is not a field mapping,
    the validator never returns. [None], a boolean or a number gives
    [TypeError]. On a list or a string the required names are looked for
    as elements of the list or as substrings of the string: the error is
    the missing-property error for the first name not found, and
    [TypeError] when all are found. *)
Theorem validate_info_not_mapping (t : string) (schema : client_schema)
    (v : json) :
  VALID_CLIENT !! t = Some schema → (∀ m, v ≠ JObj m) →
  (is_sequence v = false →
   _validate_clientsecrets (JObj {[ t := v ]}) = Raise TypeError) ∧
  (is_sequence v = true →
   forallb (holds_prop v) (required schema) = true →
   _validate_clientsecrets (JObj {[ t := v ]}) = Raise TypeError) ∧
  (is_sequence v = true →
   ∀ pre g post, required schema = (pre ++ g :: post)%list →
     forallb (holds_prop v) pre = true → holds_prop v g = false →
     _validate_clientsecrets (JObj {[ t := v ]}) = Raise (MissingField g t)).
Proof.
  intros Ht Hv. split; [|split].
  - intros Hseq. apply (validate_scalar_outcome t schema v Ht).
    destruct v; try discriminate; try exact I. destruct (Hv m eq_refl).
  - intros Hseq Hall. rewrite validate_single_key, Ht.
    rewrite (check_required_all_held t v _ Hall).
    destruct (VALID_CLIENT_cases t schema Ht) as (_ & _ & ->).
    change (Return ?a ≫= ?k) with (k a). cbn beta.
    rewrite (check_string_sequence v _ _ Hseq). reflexivity.
  - intros Hseq pre g post Hsplit Hpre Hg.
    rewrite validate_single_key, Ht, Hsplit.
    rewrite (check_required_first_absent t v pre post g Hpre); [reflexivity|].
    unfold holds_prop in Hg.
    destruct v; try discriminate; cbn in Hg |- *; rewrite Hg; reflexivity.
Qed.

Lemma validate_info_not_mapping_witness :
  _validate_clientsecrets (JObj {[ "web" := JNull ]}) = Raise TypeError ∧
  _validate_clientsecrets
    (JObj {[ "web" :=
       JStr "client_id client_secret redirect_uris auth_uri token_uri" ]})
  = Raise TypeError ∧
  _validate_clientsecrets
    (JObj {[ "web" := JArr [JStr "client_id"; JStr "client_secret"] ]})
  = Raise (MissingField "redirect_uris" "web").
Proof.
  pose (schema := {| required := ["client_id"; "client_secret";
                                  "redirect_uris"; "auth_uri"; "token_uri"];
                     string_props := ["client_id"; "client_secret"] |}).
  split; [|split].
  - destruct (validate_info_not_mapping "web" schema JNull)
      as (Hscalar & _ & _); [reflexivity|discriminate|].
    apply Hscalar. reflexivity.
  - destruct (validate_info_not_mapping "web" schema
                (JStr "client_id client_secret redirect_uris auth_uri token_uri"))
      as (_ & Hall & _); [reflexivity|discriminate|].
    apply Hall; reflexivity.
  - destruct (validate_info_not_mapping "web" schema
                (JArr [JStr "client_id"; JStr "client_secret"]))
      as (_ & _ & Hfirst); [reflexivity|discriminate|].
    apply (Hfirst eq_refl ["client_id"; "client_secret"] "redirect_uris"
             ["auth_uri"; "token_uri"]); reflexivity.
Defined.

Lemma has_prop_insert (m : gmap string json) (k f : string) (v : json) :
  has_prop m f = true → has_prop (<[k := v]> m) f = true.
Proof.
  unfold has_prop. intros [x Hx]%bool_decide_eq_true.
  apply bool_decide_eq_true. destruct (decide (k = f)) as [->|Hne].
  - rewrite lookup_insert_eq. eauto.
  - rewrite lookup_insert_ne by exact Hne. eauto.
Qed.

Lemma is_configured_insert (m : gmap string json) (k f : string) (v : json) :
  k ≠ f → is_configured (<[k := v]> m) f = is_configured m f.
Proof.
  intros Hne. unfold is_configured. rewrite lookup_insert_ne by exact Hne.
  reflexivity.
Qed.

(** X6: a field mapping the validator accepts is still accepted, and
    returned with the change, after any property other than [client_id]
    and [client_secret] is added or given another value: properties
    outside the schema are allowed, and the values of [redirect_uris],
    [auth_uri] and [token_uri] are not looked at. *)
Theorem validate_extra_field (t k : string) (m : gmap string json)
    (v : json) :
  _validate_clientsecrets (JObj {[ t := JObj m ]}) = Return (t, JObj m) →
  k ≠ "client_id" → k ≠ "client_secret" →
  _validate_clientsecrets (JObj {[ t := JObj (<[k := v]> m) ]})
  = Return (t, JObj (<[k := v]> m)).
Proof.
  intros Hrun Hid Hsecret.
  destruct (validate_returns_inv _ _ _ Hrun)
    as (schema & m' & _ & [= <-] & Ht & Hreq & Hstr).
  apply (validate_returns_intro t schema (<[k := v]> m) Ht).
  - clear Hstr. induction (required schema) as [|f props IH]; [reflexivity|].
    cbn [forallb] in Hreq |- *. apply andb_true_iff in Hreq as [Hf Hprops].
    rewrite (has_prop_insert m k f v Hf). exact (IH Hprops).
  - destruct (VALID_CLIENT_cases t schema Ht) as (_ & _ & Hprops).
    rewrite Hprops in Hstr |- *. cbn [forallb] in Hstr |- *.
    rewrite !is_configured_insert by assumption. exact Hstr.
Qed.

Lemma validate_extra_field_witness :
  _validate_clientsecrets
    (JObj {[ "installed" :=
       JObj (<["redirect_uris" := JInt 7]> Example.info) ]})
  = Return ("installed", JObj (<["redirect_uris" := JInt 7]> Example.info)).
Proof.
  apply (validate_extra_field "installed" "redirect_uris" Example.info
           (JInt 7)); [reflexivity|discriminate|discriminate].
Defined.

(** X7: the two client types ask the same of a field mapping: what the
    validator accepts under one type of the schema table it accepts under
    the other. *)
Theorem validate_same_for_both_types (t t' : string)
    (schema' : client_schema) (info : json) :
  VALID_CLIENT !! t' = Some schema' →
  _validate_clientsecrets (JObj {[ t := info ]}) = Return (t, info) →
  _validate_clientsecrets (JObj {[ t' := info ]}) = Return (t', info).
Proof.
  intros Ht' Hrun.
  destruct (validate_returns_inv _ _ _ Hrun)
    as (schema & m & _ & -> & Ht & Hreq & Hstr).
  destruct (VALID_CLIENT_cases t schema Ht) as (_ & Hr & Hs).
  destruct (VALID_CLIENT_cases t' schema' Ht') as (_ & Hr' & Hs').
  apply (validate_returns_intro t' schema' m Ht'); congruence.
Qed.

Lemma validate_same_for_both_types_witness :
  _validate_clientsecrets (JObj {[ "web" := JObj Example.info ]})
  = Return ("web", JObj Example.info).
Proof.
  apply (validate_same_for_both_types "installed" "web"
           {| required := ["client_id"; "client_secret"; "redirect_uris";
                           "auth_uri"; "token_uri"];
              string_props := ["client_id"; "client_secret"] |}
           (JObj Example.info)); reflexivity.
Defined.

(** * Further properties of the loaders *)

Section LoaderFacts.
Context {C : Type} `{!Cache C}.
Variable json_loads : decoder.
Implicit Types (st : state C) (src : source) (h c : nat).

(** The three ways the loader can end before the validator is reached or
    through it. *)
Lemma _loadfile_result st src :
  (∃ text, source_text st src = Some text ∧
     (_loadfile json_loads src st).1 = loads json_loads text) ∨
  (source_text st src = None ∧
   ∃ shown, (_loadfile json_loads src st).1 = Raise (FileNotFound shown)) ∨
  (∃ h, src = Stream h ∧ s_closed (st_streams st h) = true ∧
     (_loadfile json_loads src st).1 = Raise ValueError).
Proof.
  destruct (source_text st src) as [text|] eqn:Htext.
  { left. exists text. split; [reflexivity|].
    exact (_loadfile_text json_loads st src text Htext). }
  destruct src as [filename|h]; unfold source_text in Htext.
  - right. left. split; [reflexivity|]. exists filename.
    apply _loadfile_io_fails. unfold io_fails.
    destruct (st_fs st !! filename) as [[text|]|]; [discriminate|auto..].
  - destruct (s_closed (st_streams st h)) eqn:Hclosed.
    + right. right. exists h. split; [reflexivity|]. split; [exact Hclosed|].
      unfold _loadfile, json_load. run. rewrite Hclosed. reflexivity.
    + right. left. split; [reflexivity|].
      exists (s_repr (st_streams st h)).
      unfold _loadfile, json_load. run. rewrite Hclosed, Htext. run.
      rewrite fn_lookup_insert. reflexivity.
Qed.

(** A pair the loader returns is a pair the validator returned. *)
Lemma _loadfile_returns_validated st src (p : string * json) :
  (_loadfile json_loads src st).1 = Return p →
  ∃ text obj, source_text st src = Some text ∧
    json_loads text = Some obj ∧ _validate_clientsecrets obj = Return p.
Proof.
  intros Hrun.
  destruct (_loadfile_result st src)
    as [(text & Htext & Hout)|[(_ & shown & Hout)|(h & _ & _ & Hout)]];
    rewrite Hout in Hrun; try discriminate.
  rewrite loads_eq in Hrun.
  destruct (json_loads text) as [obj|] eqn:Hobj; [|discriminate].
  exists text, obj. auto.
Qed.

(** The loader leaves every stream but its source as it is. *)
Lemma _loadfile_other_streams st src h :
  src ≠ Stream h →
  st_streams (_loadfile json_loads src st).2 h = st_streams st h.
Proof.
  intros Hsrc.
  destruct src as [filename|h0]; unfold _loadfile, json_load; run.
  - destruct (st_fs st !! filename) as [[text|]|]; run;
      [destruct (json_loads text); run|..]; reflexivity.
  - assert (Hne : h0 ≠ h) by congruence.
    destruct (s_closed (st_streams st h0)); run;
      [|destruct (s_data (st_streams st h0)) as [text|]; run;
        [destruct (json_loads text); run|]];
      rewrite ?fn_lookup_insert_ne by exact Hne; reflexivity.
Qed.

(** *** How the cache-backed loader runs *)

Lemma loadfile_no_name st src c (e : exn) :
  cache_truth (st_caches st c) = true →
  (_get_name src st).1 = Raise e →
  loadfile json_loads src (Some c) st = (Raise e, st).
Proof.
  intros Htruth Hname. enter_loadfile Htruth.
  unfold mbind at 1, prog_bind at 1.
  rewrite (surjective_pairing (_get_name src st)), Hname, _get_name_state.
  reflexivity.
Qed.

Lemma loadfile_not_miss st src c (key : string) :
  cache_truth (st_caches st c) = true →
  (_get_name src st).1 = Return key →
  cache_get (st_caches st c) key _SECRET_NAMESPACE ≠ JNull →
  loadfile json_loads src (Some c) st
  = (py_iteritems_next
       (cache_get (st_caches st c) key _SECRET_NAMESPACE), st).
Proof.
  intros Htruth Hkey Hobj. enter_loadfile Htruth. unfold call_get.
  unfold mbind at 1, prog_bind at 1.
  rewrite (_get_name_run st src key Hkey).
  unfold mbind at 1, prog_bind at 1, mbind at 1, prog_bind at 1.
  destruct (cache_get (st_caches st c) key _SECRET_NAMESPACE);
    try reflexivity. destruct (Hobj eq_refl).
Qed.

Lemma loadfile_cached_cases st src c :
  (cache_truth (st_caches st c) = false ∧
   loadfile json_loads src (Some c) st = _loadfile json_loads src st) ∨
  cache_truth (st_caches st c) = true ∧
  ((∃ e, (_get_name src st).1 = Raise e ∧
     loadfile json_loads src (Some c) st = (Raise e, st)) ∨
  (∃ key, (_get_name src st).1 = Return key ∧
     cache_get (st_caches st c) key _SECRET_NAMESPACE = JNull ∧
     loadfile json_loads src (Some c) st =
     match _loadfile json_loads src st with
     | (Return (client_type, client_info), st1) =>
         (Return (client_type, client_info),
          set_cache c
            (cache_set (st_caches st1 c) key
               (JObj {[ client_type := client_info ]}) _SECRET_NAMESPACE) st1)
     | (Raise e, st1) => (Raise e, st1)
     end) ∨
  (∃ key, (_get_name src st).1 = Return key ∧
     cache_get (st_caches st c) key _SECRET_NAMESPACE ≠ JNull ∧
     loadfile json_loads src (Some c) st
     = (py_iteritems_next
          (cache_get (st_caches st c) key _SECRET_NAMESPACE), st))).
Proof.
  destruct (cache_truth (st_caches st c)) eqn:Htruth.
  2: { left. split; [reflexivity|].
       exact (loadfile_falsy json_loads st src c Htruth). }
  right. split; [reflexivity|].
  destruct (_get_name src st).1 as [key|e] eqn:Hkey.
  - assert (Hdec : cache_get (st_caches st c) key _SECRET_NAMESPACE = JNull ∨
                   cache_get (st_caches st c) key _SECRET_NAMESPACE ≠ JNull)
      by (destruct (cache_get (st_caches st c) key _SECRET_NAMESPACE);
          auto; right; discriminate).
    destruct Hdec as [Hmiss|Hobj].
    + right. left. exists key. split; [reflexivity|]. split; [exact Hmiss|].
      exact (loadfile_miss json_loads st src c key Htruth Hkey Hmiss).
    + right. right. exists key. split; [reflexivity|]. split; [exact Hobj|].
      exact (loadfile_not_miss st src c key Htruth Hkey Hobj).
  - left. exists e. split; [reflexivity|].
    exact (loadfile_no_name st src c e Htruth Hkey).
Qed.

Lemma closed_stream_ValueError st h :
  s_closed (st_streams st h) = true →
  (_loadfile json_loads (Stream h) st).1 = Raise ValueError ∧
  (load json_loads h st).1 = Raise ValueError.
Proof.
  intros Hclosed. unfold _loadfile, load, json_load. run.
  rewrite Hclosed. split; reflexivity.
Qed.

(** *** Loading from a source *)

(** X8: on a source that can be read, [_loadfile], [loadfile] without a
    cache or with a cache that has no entry for the source, and [load] on
    a stream, all give what [loads] gives on the text of the source. *)
Theorem loaders_agree_with_loads st src (text : string) :
  source_text st src = Some text →
  (_loadfile json_loads src st).1 = loads json_loads text ∧
  (loadfile json_loads src None st).1 = loads json_loads text ∧
  (∀ h, src = Stream h → (load json_loads h st).1 = loads json_loads text) ∧
  (∀ c key,
     (_get_name src st).1 = Return key →
     cache_get (st_caches st c) key _SECRET_NAMESPACE = JNull →
     (loadfile json_loads src (Some c) st).1 = loads json_loads text).
Proof.
  intros Htext.
  pose proof (_loadfile_text json_loads st src text Htext) as Hfile.
  repeat split; try exact Hfile.
  - intros h ->. exact (load_text json_loads st h text Htext).
  - intros c key Hkey Hmiss.
    rewrite (loadfile_miss_any json_loads st src c key Hkey Hmiss).
    destruct (cache_truth (st_caches st c)); [|exact Hfile].
    rewrite <- Hfile.
    destruct (_loadfile json_loads src st) as [[[t info]|e] st1]; reflexivity.
Qed.

(** X9: a file the loader opens is closed again before the loader is
    done, whether it ends with a pair, a decoding failure, a validation
    failure or a failed read; a path that cannot be opened and a stream
    leave no trace. *)
Theorem _loadfile_trace st src :
  st_trace (_loadfile json_loads src st).2 =
  (st_trace st ++
   match src with
   | Path filename =>
       match st_fs st !! filename with
       | Some _ => [EvOpen filename; EvClose filename]
       | None => []
       end
   | Stream _ => []
   end)%list.
Proof.
  destruct src as [filename|h]; unfold _loadfile, json_load; run.
  - destruct (st_fs st !! filename) as [[text|]|]; run;
      [destruct (json_loads text); run|..];
      rewrite <- ?app_assoc, ?app_nil_r; reflexivity.
  - destruct (s_closed (st_streams st h)); run;
      [|destruct (s_data (st_streams st h)) as [text|]; run;
        [destruct (json_loads text); run|]];
      rewrite app_nil_r; reflexivity.
Qed.

(** X10: [load] reads the stream to its end and leaves it open: after a
    [load] the stream is not closed and holds no more text, so that a
    second [load] from it decodes the empty text. *)
Theorem load_consumes_stream st h (text : string) :
  source_text st (Stream h) = Some text →
  s_closed (st_streams (load json_loads h st).2 h) = false ∧
  source_text (load json_loads h st).2 (Stream h) = Some "" ∧
  (load json_loads h (load json_loads h st).2).1 = loads json_loads "".
Proof.
  intros Htext.
  assert (Hafter : source_text (load json_loads h st).2 (Stream h) = Some "").
  { unfold source_text in Htext |- *. unfold load, json_load. run.
    destruct (s_closed (st_streams st h)); [discriminate|].
    rewrite Htext. run.
    destruct (json_loads text); run; rewrite fn_lookup_insert; reflexivity. }
  split; [|split; [exact Hafter|]].
  - unfold source_text in Hafter.
    destruct (s_closed (st_streams (load json_loads h st).2 h));
      [discriminate|reflexivity].
  - exact (load_text json_loads _ h "" Hafter).
Qed.

(** X11: a stream can be loaded from once: the loader closes it, and a
    second [_loadfile] or a [load] on the same stream raises [ValueError],
    not a validation error. *)
Theorem _loadfile_stream_once st h :
  (_loadfile json_loads (Stream h)
     (_loadfile json_loads (Stream h) st).2).1 = Raise ValueError ∧
  (load json_loads h (_loadfile json_loads (Stream h) st).2).1
  = Raise ValueError.
Proof.
  apply closed_stream_ValueError. apply _loadfile_closes.
Qed.

(** X12: no [IOError] leaves [_loadfile] or [loadfile]: a failure to open
    or to read is always turned into the module's validation error. *)
Theorem loadfile_never_IOError st src (cache : option nat) :
  (_loadfile json_loads src st).1 ≠ Raise IOError ∧
  (loadfile json_loads src cache st).1 ≠ Raise IOError.
Proof.
  assert (Hfile : (_loadfile json_loads src st).1 ≠ Raise IOError).
  { intros Hrun.
    destruct (_loadfile_result st src)
      as [(text & _ & Hout)|[(_ & shown & Hout)|(h & _ & _ & Hout)]];
      rewrite Hout in Hrun; try discriminate.
    rewrite loads_eq in Hrun.
    destruct (json_loads text) as [obj|]; [|discriminate].
    destruct (validate_raises_inv obj _ Hrun)
      as [[He _]|[(k & v & _ & _ & He)
         |[(t & schema & v & pre & g & post & _ & _ & _ & _ & _ & He)
          |[(t & schema & m & g & _ & _ & _ & _ & _ & He)
           |[[He _]|[He _]]]]]]; discriminate. }
  split; [exact Hfile|].
  destruct cache as [c|]; [|exact Hfile].
  destruct (loadfile_cached_cases st src c)
    as [[_ ->]|[_ [(e & Hname & ->)|[(key & _ & _ & ->)|(key & _ & _ & ->)]]]].
  - exact Hfile.
  - cbn. intros [= ->].
    destruct src as [filename|h]; cbn in Hname; [discriminate|].
    destruct (s_name (st_streams st h)); discriminate.
  - destruct (_loadfile json_loads src st) as [[[t info]|e] st1];
      [discriminate|exact Hfile].
  - cbn. destruct (cache_get (st_caches st c) key _SECRET_NAMESPACE) as
      [| | | | | |m]; try discriminate.
    cbn. destruct (map_to_list m); discriminate.
Qed.

(** X13: when reading an open stream fails with an I/O error, [_loadfile]
    raises the file-not-found error showing the stream, while [load] lets
    the [IOError] through. *)
Theorem stream_read_failure st h :
  s_closed (st_streams st h) = false →
  s_data (st_streams st h) = None →
  (_loadfile json_loads (Stream h) st).1
  = Raise (FileNotFound (s_repr (st_streams st h))) ∧
  (load json_loads h st).1 = Raise IOError.
Proof.
  intros Hopen Hdata. unfold _loadfile, load, json_load. run.
  rewrite Hopen, Hdata. run. rewrite fn_lookup_insert. split; reflexivity.
Qed.

(** *** The cache-backed loader *)

(** X14: a [loadfile] that fails leaves every cache as it was: a failure
    is never stored, and the next call with the same cache tries the
    source again. *)
Theorem loadfile_failure_keeps_caches st src (cache : option nat)
    (e : exn) :
  (loadfile json_loads src cache st).1 = Raise e →
  st_caches (loadfile json_loads src cache st).2 = st_caches st.
Proof.
  destruct (_loadfile_frame json_loads st src) as (Hcaches & _ & _).
  destruct cache as [c|]; [|intros _; exact Hcaches].
  destruct (loadfile_cached_cases st src c)
    as [[_ ->]|[_ [(e' & _ & ->)|[(key & _ & _ & ->)|(key & _ & _ & ->)]]]];
    try reflexivity.
  - intros _. exact Hcaches.
  - destruct (_loadfile json_loads src st) as [[[t info]|e'] st1];
      [discriminate|]. intros _. exact Hcaches.
Qed.

(** X15: [loadfile] never changes the file system, changes no cache but
    the one it was given, and touches no stream but its source. *)
Theorem loadfile_frame st src (cache : option nat) :
  st_fs (loadfile json_loads src cache st).2 = st_fs st ∧
  (∀ c, cache ≠ Some c →
     st_caches (loadfile json_loads src cache st).2 c = st_caches st c) ∧
  (∀ h, src ≠ Stream h →
     st_streams (loadfile json_loads src cache st).2 h = st_streams st h).
Proof.
  destruct (_loadfile_frame json_loads st src) as (Hcaches & Hfs & _).
  pose proof (_loadfile_other_streams st src) as Hstreams.
  destruct cache as [c0|].
  2: { repeat split; [exact Hfs|intros c _; exact (f_equal (λ f, f c) Hcaches)
                     |exact Hstreams]. }
  destruct (loadfile_cached_cases st src c0)
    as [[_ ->]|[_ [(e' & _ & ->)|[(key & _ & _ & ->)|(key & _ & _ & ->)]]]];
    try (repeat split; reflexivity).
  { repeat split; [exact Hfs|intros c _; exact (f_equal (λ f, f c) Hcaches)
                  |exact Hstreams]. }
  destruct (_loadfile json_loads src st) as [[[t info]|e'] st1];
    cbn in Hcaches, Hfs, Hstreams |- *.
  - repeat split; [exact Hfs| |exact Hstreams].
    intros c Hc. rewrite fn_lookup_insert_ne by congruence.
    rewrite Hcaches. reflexivity.
  - repeat split; [exact Hfs|intros c _; exact (f_equal (λ f, f c) Hcaches)
                  |exact Hstreams].
Qed.

(** X16: with a cache that is true in a boolean context, a stream that
    has no [name] attribute cannot be loaded: [loadfile] raises
    [AttributeError] before it asks the cache or reads the stream, and
    leaves the world as it is. With a cache that is false the name is not
    asked for and the stream is loaded as without a cache. *)
Theorem loadfile_nameless_stream st h c :
  s_name (st_streams st h) = None →
  (cache_truth (st_caches st c) = true →
   loadfile json_loads (Stream h) (Some c) st = (Raise AttributeError, st)) ∧
  (cache_truth (st_caches st c) = false →
   loadfile json_loads (Stream h) (Some c) st
   = _loadfile json_loads (Stream h) st).
Proof.
  intros Hname. split; intros Htruth.
  - apply (loadfile_no_name st (Stream h) c AttributeError Htruth).
    cbn. rewrite Hname. reflexivity.
  - exact (loadfile_falsy json_loads st (Stream h) c Htruth).
Qed.

(** X17: whatever a cache that is true in a boolean context answers other
    than [None] is taken for a stored entry: the loader is not called and
    the world stays as it is.
    A one-entry dictionary is returned as a pair without being validated,
    the empty dictionary gives [StopIteration], and a value that is not a
    dictionary gives [AttributeError]. *)
Theorem loadfile_without_loader st src c (key : string) :
  cache_truth (st_caches st c) = true →
  (_get_name src st).1 = Return key →
  cache_get (st_caches st c) key _SECRET_NAMESPACE ≠ JNull →
  (loadfile json_loads src (Some c) st).2 = st ∧
  (∀ k v,
     cache_get (st_caches st c) key _SECRET_NAMESPACE = JObj {[ k := v ]} →
     (loadfile json_loads src (Some c) st).1 = Return (k, v)) ∧
  (cache_get (st_caches st c) key _SECRET_NAMESPACE = JObj ∅ →
   (loadfile json_loads src (Some c) st).1 = Raise StopIteration) ∧
  ((∀ m, cache_get (st_caches st c) key _SECRET_NAMESPACE ≠ JObj m) →
   (loadfile json_loads src (Some c) st).1 = Raise AttributeError).
Proof.
  intros Htruth Hkey Hobj.
  rewrite (loadfile_not_miss st src c key Htruth Hkey Hobj).
  split; [reflexivity|]. split; [|split].
  - intros k v ->. cbn. rewrite map_to_list_singleton. reflexivity.
  - intros ->. cbn. rewrite map_to_list_empty. reflexivity.
  - intros Hnot. cbn.
    destruct (cache_get (st_caches st c) key _SECRET_NAMESPACE);
      try reflexivity. destruct (Hnot m eq_refl).
Qed.

(** X18: when [loadfile], called with a cache that is true in a boolean
    context, returns a pair after a miss, what it has stored,
    on top of the cache as it was, under the source's name and the
    module's namespace, is the one-entry dictionary of that pair, and this
    dictionary is a document the validator accepts with the same pair:
    [loadfile] writes validated data only. *)
Theorem stored_entry_validates st st' src c (key client_type : string)
    (client_info : json) :
  cache_truth (st_caches st c) = true →
  (_get_name src st).1 = Return key →
  cache_get (st_caches st c) key _SECRET_NAMESPACE = JNull →
  loadfile json_loads src (Some c) st
  = (Return (client_type, client_info), st') →
  st_caches st' c
  = cache_set (st_caches st c) key
      (JObj {[ client_type := client_info ]}) _SECRET_NAMESPACE ∧
  _validate_clientsecrets (JObj {[ client_type := client_info ]})
  = Return (client_type, client_info).
Proof.
  intros Htruth Hkey Hmiss.
  rewrite (loadfile_miss json_loads st src c key Htruth Hkey Hmiss).
  destruct (_loadfile_frame json_loads st src) as (Hcaches & _ & _).
  pose proof (_loadfile_returns_validated st src) as Hvalid.
  destruct (_loadfile json_loads src st) as [[[t info]|e] st1];
    [|discriminate].
  intros [= -> -> <-]. cbn in Hcaches. split.
  - cbn. rewrite fn_lookup_insert, Hcaches. reflexivity.
  - destruct (Hvalid (client_type, client_info) eq_refl)
      as (text & obj & _ & _ & Hrun).
    destruct (validate_returns_inv _ _ _ Hrun) as (schema & m & -> & _).
    exact Hrun.
Qed.

End LoaderFacts.

(** ** The further properties on the example world *)

Lemma loaders_agree_with_loads_witness :
  (_loadfile JsonFragment.json_loads (Path "secrets.json") Example.world).1
  = loads JsonFragment.json_loads Example.installed_text.
Proof.
  apply (loaders_agree_with_loads JsonFragment.json_loads Example.world
           (Path "secrets.json") Example.installed_text).
  reflexivity.
Defined.

Lemma load_consumes_stream_witness :
  s_closed (st_streams (load JsonFragment.json_loads 0 Example.world).2 0)
  = false ∧
  source_text (load JsonFragment.json_loads 0 Example.world).2 (Stream 0)
  = Some "" ∧
  (load JsonFragment.json_loads 0
     (load JsonFragment.json_loads 0 Example.world).2).1
  = loads JsonFragment.json_loads "".
Proof.
  apply (load_consumes_stream JsonFragment.json_loads Example.world 0
           Example.installed_text).
  reflexivity.
Defined.

Lemma stream_read_failure_witness :
  (_loadfile JsonFragment.json_loads (Stream 3) Example2.world).1
  = Raise (FileNotFound "<stream tape>") ∧
  (load JsonFragment.json_loads 3 Example2.world).1 = Raise IOError.
Proof.
  apply (stream_read_failure JsonFragment.json_loads Example2.world 3);
    reflexivity.
Defined.

Lemma loadfile_failure_keeps_caches_witness :
  st_caches
    (loadfile JsonFragment.json_loads (Path "missing.json") (Some 0)
       Example.world).2
  = st_caches Example.world.
Proof.
  apply (loadfile_failure_keeps_caches JsonFragment.json_loads Example.world
           (Path "missing.json") (Some 0) (FileNotFound "missing.json")).
  reflexivity.
Defined.

Lemma loadfile_nameless_stream_witness :
  loadfile JsonFragment.json_loads (Stream 4) (Some 0) Example2.world
  = (Raise AttributeError, Example2.world) ∧
  (loadfile JsonFragment.json_loads (Stream 4) None Example2.world).1
  = Return ("installed", JObj Example.info).
Proof.
  split; [|reflexivity].
  destruct (loadfile_nameless_stream JsonFragment.json_loads Example2.world
              4 0) as [Htrue _]; [reflexivity|].
  apply Htrue. reflexivity.
Defined.

Lemma loadfile_without_loader_witness :
  (loadfile JsonFragment.json_loads (Path "secrets.json") (Some 0)
     (Example.with_entry "secrets.json" (JObj {[ "bogus" := JNull ]}))).1
  = Return ("bogus", JNull) ∧
  _validate_clientsecrets (JObj {[ "bogus" := JNull ]})
  = Raise (UnknownClientType "bogus").
Proof.
  split; [|reflexivity].
  destruct (loadfile_without_loader JsonFragment.json_loads
              (Example.with_entry "secrets.json" (JObj {[ "bogus" := JNull ]}))
              (Path "secrets.json") 0 "secrets.json")
    as (_ & Hentry & _); [reflexivity|reflexivity|discriminate|].
  apply Hentry. reflexivity.
Defined.

Lemma stored_entry_validates_witness :
  st_caches
    (loadfile JsonFragment.json_loads (Path "secrets.json") (Some 0)
       Example.world).2 0
  = cache_set (st_caches Example.world 0) "secrets.json"
      (JObj {[ "installed" := JObj Example.info ]}) _SECRET_NAMESPACE ∧
  _validate_clientsecrets (JObj {[ "installed" := JObj Example.info ]})
  = Return ("installed", JObj Example.info).
Proof.
  apply (stored_entry_validates JsonFragment.json_loads Example.world
           (loadfile JsonFragment.json_loads (Path "secrets.json") (Some 0)
              Example.world).2
           (Path "secrets.json") 0 "secrets.json"); reflexivity.
Defined.
